(** * smproduct-scraper: the save/resume/dedup logic, the scroll loop,
      card extraction, text and price normalisation, the CSV conversion
      and the two [main] functions

    A shallow embedding of [src/scrape-sm.js] and [src/convert-to-csv.js].

    Modelling conventions.
    - A JavaScript string is the list of its UTF-16 code units ([jsstring]);
      the regular expressions of the source have no [u] flag and therefore
      work on code units.
    - A JavaScript number produced by [parsePrice] is represented by the
      exact rational that the decimal literal denotes (in lowest terms); the
      value the program holds is the IEEE-754 double nearest to it.  The
      overflow to [Infinity] is decided exactly on the rational.
    - The file system is a finite map from paths to file contents.  A file
      written with [JSON.stringify] and read back with [JSON.parse] yields
      the value that was written.
    - [new Date().toISOString()] is an input of every operation that reads
      the clock.
    - Paths are taken after [path.resolve]; the browser is represented by
      what the program observes of the page (counts, heights, the nodes the
      selectors find). *)

From Stdlib Require Import ZArith NArith QArith Lia.
From Stdlib Require Qcanon.
From stdpp Require Import base list gmap strings.

Open Scope Z_scope.

(** ** JavaScript strings *)

Module JsString.

Definition jsstring := list N.

(** Code units of an ASCII literal. *)
Fixpoint u16 (s : string) : jsstring :=
  match s with
  | EmptyString => []
  | String a r => Ascii.N_of_ascii a :: u16 r
  end.

(** [!value] on a string: only the empty string is falsy. *)
Definition truthy (s : jsstring) : bool :=
  match s with [] => false | _ => true end.

(** The class [\s] of ECMAScript: WhiteSpace and LineTerminator. *)
Definition is_ws (c : N) : bool :=
  ((9 <=? c) && (c <=? 13) ||
   (c =? 32) || (c =? 160) || (c =? 5760) ||
   ((8192 <=? c) && (c <=? 8202)) ||
   (c =? 8232) || (c =? 8233) || (c =? 8239) || (c =? 8287) ||
   (c =? 12288) || (c =? 65279))%N.

Definition SPACE : N := 32%N.

(** [s.replace(/\s+/g, " ")]; [in_run] tells that the unit before the
    head already belonged to the whitespace run being replaced. *)
Fixpoint replace_ws_runs_from (in_run : bool) (s : jsstring) : jsstring :=
  match s with
  | [] => []
  | c :: r =>
      if is_ws c
      then (if in_run then replace_ws_runs_from true r
            else SPACE :: replace_ws_runs_from true r)
      else c :: replace_ws_runs_from false r
  end.

Definition replace_ws_runs (s : jsstring) : jsstring :=
  replace_ws_runs_from false s.

Fixpoint trimStart (s : jsstring) : jsstring :=
  match s with
  | [] => []
  | c :: r => if is_ws c then trimStart r else s
  end.

Fixpoint trimEnd (s : jsstring) : jsstring :=
  match s with
  | [] => []
  | c :: r =>
      match trimEnd r with
      | [] => if is_ws c then [] else [c]
      | r' => c :: r'
      end
  end.

(** [s.trim()] *)
Definition trim (s : jsstring) : jsstring := trimEnd (trimStart s).

End JsString.
Import JsString.

(** ** [sanitizeText] and [parsePrice] (identical in both scripts) *)

(** [function sanitizeText(value)] on a string argument. *)
Definition sanitizeText (value : jsstring) : jsstring :=
  if negb (truthy value) then [] else trim (replace_ws_runs value).

Module Price.

Definition is_digit (c : N) : bool := ((48 <=? c) && (c <=? 57))%N.
Definition DOT : N := 46%N.
Definition COMMA : N := 44%N.

(** [/[^0-9.,]/]: the units that the first replace keeps. *)
Definition in_price_class (c : N) : bool :=
  is_digit c || (c =? DOT)%N || (c =? COMMA)%N.

(** The two chained [replace] calls: delete every unit outside
    [0-9.,], then delete the commas. *)
Definition cleaned (text : jsstring) : jsstring :=
  List.filter (fun c => negb (c =? COMMA)%N) (List.filter in_price_class text).

(** The values [parseFloat] can return on a string of digits and dots. *)
Inductive jsnumber :=
| NaN
| PosInfinity
| Num (q : Q).

Fixpoint take_digits (s : jsstring) : list N * jsstring :=
  match s with
  | c :: r =>
      if is_digit c
      then let '(ds, rest) := take_digits r in (c :: ds, rest)
      else ([], s)
  | [] => ([], [])
  end.

Definition digit_value (c : N) : Z := Z.of_N c - 48.

(** Value of a digit string read in base ten. *)
Definition digits_value (ds : list N) : Z :=
  fold_left (fun acc c => 10 * acc + digit_value c) ds 0.

(** Every real at or above this bound rounds to [Infinity] (round to
    nearest, ties to even); everything below rounds to a finite double. *)
Definition overflow_bound : Z := 2 ^ 1024 - 2 ^ 970.

(** The number a decimal literal denotes, as the exact rational in lowest
    terms; [parseFloat] returns the double nearest to it, which is the same
    number whenever that rational is a double (every whole number up to
    2^53, for one).  Statements about values below are made only where the
    two agree, or as equalities between parses. *)
Definition of_decimal (int_part frac_part : list N) : jsnumber :=
  let m := digits_value (int_part ++ frac_part) in
  let d := 10 ^ Z.of_nat (length frac_part) in
  if overflow_bound * d <=? m then PosInfinity
  else Num (Qred (m # Z.to_pos d)).

(** [parseFloat] restricted to strings over digits and dots: the longest
    prefix that is a StrUnsignedDecimalLiteral, namely [digits],
    [digits . digits?] or [. digits]; [NaN] when there is none. *)
Definition parseFloat (s : jsstring) : jsnumber :=
  let '(ip, rest) := take_digits s in
  match rest with
  | c :: r =>
      if (c =? DOT)%N
      then let '(fp, _) := take_digits r in
           match ip, fp with
           | [], [] => NaN
           | _, _ => of_decimal ip fp
           end
      else match ip with [] => NaN | _ => of_decimal ip [] end
  | [] => match ip with [] => NaN | _ => of_decimal ip [] end
  end.

(** [Number.isFinite(num) ? num : null] *)
Definition finite_or_null (n : jsnumber) : option Q :=
  match n with
  | Num q => Some q
  | NaN | PosInfinity => None
  end.

(** [function parsePrice(text)]; [None] is [null]. *)
Definition parsePrice (text : jsstring) : option Q :=
  if negb (truthy text) then None
  else finite_or_null (parseFloat (cleaned text)).

End Price.
Import Price.

(** ** Data model *)

(** A card as [scrapeCategory] returns it.  [getAttribute("href")] gives
    [null] when the anchor has no [href]; the other fields are strings. *)
Record RawProduct := {
  raw_name : jsstring;
  raw_url : option jsstring;
  raw_uom : jsstring;
  raw_priceText : jsstring;
  raw_weightedPriceText : jsstring;
  raw_image : jsstring;
}.

(** A product record of the output document. *)
Record Product := {
  name : jsstring;
  url : option jsstring;
  uom : jsstring;
  price : option Q;
  priceText : jsstring;
  weightedPriceText : jsstring;
  image : jsstring;
  scrapedAt : jsstring;
  sourceUrl : jsstring;
}.

Record Metadata := {
  md_sourceUrl : jsstring;
  md_scrapedAt : jsstring;
  totalProducts : nat;
  lastSavedAt : option jsstring;
  completed : option bool;
}.

(** A parsed JSON object; a key that is absent reads as [undefined]
    ([None]). *)
Record Document := {
  metadata : option Metadata;
  products : option (list Product);
}.

Record CsvRow := {
  csv_name : jsstring;
  csv_url : jsstring;
  csv_uom : jsstring;
  csv_price : option Q;
  csv_priceText : jsstring;
  csv_weightedPriceText : jsstring;
  csv_image : jsstring;
  csv_scrapedAt : jsstring;
  csv_sourceUrl : jsstring;
}.

Inductive FileContent :=
| Unparseable (raw : jsstring)          (* [JSON.parse] throws on it *)
| JsonFile (d : Document)
| CsvFile (header : list string) (rows : list CsvRow).

(** The file system: path |-> content; an absent key is a missing file. *)
Abbreviation FS := (gmap string FileContent).

(** Truthiness of a value that is a string or [null]. *)
Definition truthy_opt (v : option jsstring) : bool :=
  match v with Some s => truthy s | None => false end.

Definition path_truthy (p : string) : bool :=
  match p with EmptyString => false | _ => true end.

(** ** Persistence ([scrape-sm.js]) *)

(** [function loadExistingProducts(jsonPath)] *)
Definition loadExistingProducts (fs : FS) (jsonPath : string) : list Product :=
  match fs !! jsonPath with
  | None => []                                   (* !fs.existsSync *)
  | Some (JsonFile data) =>
      match products data with                   (* data.products || [] *)
      | Some ps => ps
      | None => []
      end
  | Some (Unparseable _) | Some (CsvFile _ _) => []   (* catch (err) *)
  end.

(** [function normalizeProduct(p, sourceUrl, scrapeTimestamp)]; [now] is
    the clock read by the fallback [new Date().toISOString()]. *)
Definition normalizeProduct (p : RawProduct) (sourceUrl : jsstring)
    (scrapeTimestamp : jsstring) (now : jsstring) : Product :=
  {| name := sanitizeText (raw_name p);
     url := raw_url p;
     uom := sanitizeText (raw_uom p);
     price := parsePrice (raw_priceText p);
     priceText := sanitizeText (raw_priceText p);
     weightedPriceText := sanitizeText (raw_weightedPriceText p);
     image := raw_image p;
     scrapedAt := if truthy scrapeTimestamp then scrapeTimestamp else now;
     sourceUrl := sourceUrl |}.

(** [(p) => p.name && p.url] *)
Definition has_name_and_url (p : RawProduct) : bool :=
  truthy (raw_name p) && truthy_opt (raw_url p).

(** [products.filter(...).map((p) => normalizeProduct(...))] *)
Definition normalized (products : list RawProduct) (sourceUrl : jsstring)
    (scrapeTimestamp : jsstring) : list Product :=
  (fun p => normalizeProduct p sourceUrl scrapeTimestamp scrapeTimestamp)
    <$> filter (fun p => has_name_and_url p) products.

(** [new Set(existing.map((p) => p.url))] *)
Definition url_set (existing : list Product) : gset (option jsstring) :=
  list_to_set (url <$> existing).

(** The [allProducts] of [saveProductsIncremental]. *)
Definition merge_products (existing normalized : list Product) : list Product :=
  let existingUrls := url_set existing in
  let newProducts := filter (fun p => url p ∉ existingUrls) normalized in
  existing ++ newProducts.

(** [async function saveProductsIncremental(products, {jsonPath, sourceUrl,
    lastSavedCount})]: the file system after the call and the returned
    [allProducts.length].  [now] is the clock at entry. *)
Definition saveProductsIncremental (products : list RawProduct)
    (jsonPath : string) (sourceUrl : jsstring) (now : jsstring) (fs : FS)
  : FS * nat :=
  let scrapeTimestamp := now in
  let normalized := normalized products sourceUrl scrapeTimestamp in
  let existing := loadExistingProducts fs jsonPath in
  let allProducts := merge_products existing normalized in
  let outputData :=
    {| metadata := Some {| md_sourceUrl := sourceUrl;
                           md_scrapedAt := scrapeTimestamp;
                           totalProducts := length allProducts;
                           lastSavedAt := Some scrapeTimestamp;
                           completed := None |};
       products := Some allProducts |} in
  (<[jsonPath := JsonFile outputData]> fs, length allProducts).

(** [async function writeFinalOutput(products, {jsonPath, sourceUrl})] *)
Definition writeFinalOutput (products : list RawProduct)
    (jsonPath : string) (sourceUrl : jsstring) (now : jsstring) (fs : FS)
  : FS * nat :=
  let scrapeTimestamp := now in
  let normalized := normalized products sourceUrl scrapeTimestamp in
  let outputData :=
    {| metadata := Some {| md_sourceUrl := sourceUrl;
                           md_scrapedAt := scrapeTimestamp;
                           totalProducts := length normalized;
                           lastSavedAt := None;
                           completed := Some true |};
       products := Some normalized |} in
  (<[jsonPath := JsonFile outputData]> fs, length normalized).

(** What one write of a run does to the output file. *)
Inductive WriteOp :=
| Incremental (products : list RawProduct) (sourceUrl now : jsstring)
| Final (products : list RawProduct) (sourceUrl now : jsstring).

Definition apply_write (jsonPath : string) (fs : FS) (op : WriteOp) : FS :=
  match op with
  | Incremental ps src now => fst (saveProductsIncremental ps jsonPath src now fs)
  | Final ps src now => fst (writeFinalOutput ps jsonPath src now fs)
  end.

(** A sequence of writes, possibly spread over several runs, any of which
    may have been interrupted before its final write. *)
Definition apply_writes (jsonPath : string) (fs : FS) (ops : list WriteOp) : FS :=
  fold_left (apply_write jsonPath) ops fs.

(** The metadata object of the output file, when the file holds one. *)
Definition file_metadata (fs : FS) (jsonPath : string) : option Metadata :=
  match fs !! jsonPath with
  | Some (JsonFile d) => metadata d
  | _ => None
  end.

(** ** The scroll driver ([scrape-sm.js]) *)

(** What the page shows during iteration [i] of the loop of
    [loadAllProducts]. *)
Record IterationObs := {
  obs_hasContainer : bool;        (* page.$(".infinite-scroll-component") *)
  obs_heights : nat -> Z;         (* document.body.scrollHeight after pulse j *)
  obs_currentCount : nat;         (* getProductCount(page) at line 187 *)
  obs_cards : list RawProduct;    (* scrapeCategory(page) *)
  obs_now : jsstring;             (* the clock when the save starts *)
}.

(** The second loop of [autoScroll] (no container): number of scroll
    pulses issued from pulse [j] on, with [remaining] rounds left. *)
Fixpoint autoScroll_window (remaining : nat) (j : nat) (heights : nat -> Z)
    (previousHeight : Z) : nat :=
  match remaining with
  | O => O
  | S remaining' =>
      let currentHeight := heights j in
      if currentHeight =? previousHeight then 1%nat
      else S (autoScroll_window remaining' (S j) heights currentHeight)
  end.

(** [async function autoScroll(page, {maxScrolls, waitMs,
    containerSelector})]: the number of scroll pulses ([page.evaluate]
    calls that scroll) it issues. *)
Definition autoScroll (hasContainer : bool) (maxScrolls : nat)
    (heights : nat -> Z) : nat :=
  if hasContainer then maxScrolls
  else autoScroll_window maxScrolls 0 heights 0.

Record LoopState := {
  previousCount : Z;
  stableIterations : nat;
}.

Record LoopResult := {
  pulses : list nat;      (* scroll pulses of each iteration that ran *)
  stabilized : bool;      (* left by [break] *)
  final_fs : FS;
}.

Definition iterations (r : LoopResult) : nat := length (pulses r).

Definition maxStable : nat := 6.
Definition iterationCap : nat := 500.

Definition ran (n : nat) (r : LoopResult) : LoopResult :=
  {| pulses := n :: pulses r; stabilized := stabilized r; final_fs := final_fs r |}.

(** The [for (let i = 0; i < 500; i++)] loop of [loadAllProducts], entered
    at iteration [i] with [remaining = 500 - i]. *)
Fixpoint loadAllProducts_loop (remaining : nat) (i : nat)
    (page : nat -> IterationObs) (jsonPath : string) (sourceUrl : jsstring)
    (saveInterval : nat) (st : LoopState) (fs : FS) : LoopResult :=
  match remaining with
  | O => {| pulses := []; stabilized := false; final_fs := fs |}
  | S remaining' =>
      let o := page i in
      let n := autoScroll (obs_hasContainer o) 5 (obs_heights o) in
      let currentCount := Z.of_nat (obs_currentCount o) in
      let fs' :=
        if path_truthy jsonPath &&
           ((negb (saveInterval =? 0)%nat && (i mod saveInterval =? 0)%nat)
            || (previousCount st <? currentCount))
        then fst (saveProductsIncremental (obs_cards o) jsonPath sourceUrl
                    (obs_now o) fs)
        else fs in
      if currentCount <=? previousCount st then
        let stable := S (stableIterations st) in
        if (maxStable <=? stable)%nat
        then {| pulses := [n]; stabilized := true; final_fs := fs' |}
        else ran n (loadAllProducts_loop remaining' (S i) page jsonPath sourceUrl
                      saveInterval
                      {| previousCount := currentCount; stableIterations := stable |}
                      fs')
      else ran n (loadAllProducts_loop remaining' (S i) page jsonPath sourceUrl
                    saveInterval
                    {| previousCount := currentCount; stableIterations := 0 |}
                    fs')
  end.

(** [async function loadAllProducts(page, {isHeadful, jsonPath, sourceUrl,
    saveInterval})] *)
Definition loadAllProducts (page : nat -> IterationObs) (jsonPath : string)
    (sourceUrl : jsstring) (saveInterval : nat) (fs : FS) : LoopResult :=
  loadAllProducts_loop iterationCap 0 page jsonPath sourceUrl saveInterval
    {| previousCount := -1; stableIterations := 0 |} fs.

(** The count the loop compares iteration [i] against. *)
Definition count_before (page : nat -> IterationObs) (i : nat) : Z :=
  match i with
  | O => -1
  | S j => Z.of_nat (obs_currentCount (page j))
  end.

(** Iteration [i] measured a count that did not increase. *)
Definition not_increased (page : nat -> IterationObs) (i : nat) : bool :=
  Z.of_nat (obs_currentCount (page i)) <=? count_before page i.

(** The [maxStable] iterations ending with iteration [i] (inclusive) all
    measured a count that did not increase. *)
Definition stable_at (page : nat -> IterationObs) (i : nat) : bool :=
  (maxStable <=? S i)%nat &&
  forallb (not_increased page) (seq (S i - maxStable) maxStable).

(** ** CSV conversion ([convert-to-csv.js]) *)

Inductive ConvertOutcome :=
| ExitNotFound      (* process.exit(1) at line 36 *)
| ExitNoProducts    (* process.exit(1) at line 45 *)
| Thrown            (* JSON.parse throws; main().catch then exits *)
| Converted (rows : nat).

Definition or_empty (v : option jsstring) : jsstring :=
  match v with Some s => s | None => [] end.

(** [a || b] on strings. *)
Definition or_else (a b : jsstring) : jsstring := if truthy a then a else b.

Definition csv_columns : list string :=
  ["name"; "url"; "uom"; "price"; "priceText"; "weightedPriceText";
   "image"; "scrapedAt"; "sourceUrl"].

(** The object built by [products.map((p) => ({...}))].  Every record that
    the scraper writes has the [price] key (a number or [null]), so
    [p.price !== undefined] holds on them and [price] is taken as stored. *)
Definition csv_row (jsonData : Document) (p : Product) : CsvRow :=
  {| csv_name := sanitizeText (name p);
     csv_url := or_empty (url p);
     csv_uom := sanitizeText (uom p);
     csv_price := price p;
     csv_priceText := sanitizeText (priceText p);
     csv_weightedPriceText := sanitizeText (weightedPriceText p);
     csv_image := image p;
     csv_scrapedAt := scrapedAt p;
     csv_sourceUrl :=
       or_else (sourceUrl p)
         (match metadata jsonData with
          | Some m => md_sourceUrl m
          | None => []
          end) |}.

(** [async function convertJsonToCsv(jsonPath, csvPath)] *)
Definition convertJsonToCsv (jsonPath csvPath : string) (fs : FS)
  : ConvertOutcome * FS :=
  match fs !! jsonPath with
  | None => (ExitNotFound, fs)
  | Some (Unparseable _) | Some (CsvFile _ _) => (Thrown, fs)
  | Some (JsonFile jsonData) =>
      let products := match products jsonData with Some ps => ps | None => [] end in
      if (length products =? 0)%nat then (ExitNoProducts, fs)
      else
        let normalized := csv_row jsonData <$> products in
        (Converted (length normalized),
         <[csvPath := CsvFile csv_columns normalized]> fs)
  end.

(** The exit status the conversion ends with, [None] for a normal end. *)
Definition exit_status (o : ConvertOutcome) : option Z :=
  match o with
  | ExitNotFound | ExitNoProducts | Thrown => Some 1
  | Converted _ => None
  end.

(** The outcome is one of the two explicit checks of [convertJsonToCsv]. *)
Definition exits_at_check (o : ConvertOutcome) : bool :=
  match o with
  | ExitNotFound | ExitNoProducts => true
  | Thrown | Converted _ => false
  end.

(** The products list the conversion works on. *)
Definition input_products (fs : FS) (jsonPath : string) : option (list Product) :=
  match fs !! jsonPath with
  | Some (JsonFile d) => Some (match products d with Some ps => ps | None => [] end)
  | _ => None
  end.

(** ** Specification vocabulary *)

Definition PESO : N := 8369%N.

Definition head_not_ws (s : jsstring) : bool :=
  match s with [] => true | c :: _ => negb (is_ws c) end.

(** Every whitespace unit is a single space with no whitespace after it. *)
Fixpoint collapsed (s : jsstring) : bool :=
  match s with
  | [] => true
  | c :: r => (if is_ws c then (c =? SPACE)%N && head_not_ws r else true)
              && collapsed r
  end.

(** Whitespace only as single spaces strictly between other units. *)
Fixpoint spaces_inside (s : jsstring) : bool :=
  match s with
  | [] => true
  | c :: r =>
      (if is_ws c
       then (c =? SPACE)%N && match r with [] => false | d :: _ => negb (is_ws d) end
       else true)
      && spaces_inside r
  end.

(** "Runs of whitespace collapsed to a single space and the result
    trimmed". *)
Definition ws_normalized (s : jsstring) : bool :=
  head_not_ws s && spaces_inside s.

(** The text fields that the spec lists for a product record. *)
Definition text_fields (p : Product) : list jsstring :=
  [name p; or_empty (url p); uom p; priceText p; weightedPriceText p; image p].

Definition all_text_fields_normalized (p : Product) : bool :=
  forallb ws_normalized (text_fields p).

(** The url-deduplicated form of a list of records, in the words of the
    spec: one record per distinct [url], the first one met. *)
Fixpoint dedupByUrl (l : list Product) : list Product :=
  match l with
  | [] => []
  | p :: r => p :: filter (fun q => url q <> url p) (dedupByUrl r)
  end.

(** The products the output file holds, as the program reads them back. *)
Definition file_products (fs : FS) (jsonPath : string) : list Product :=
  loadExistingProducts fs jsonPath.

(** The cards of a batch that pass [p.name && p.url]. *)
Definition kept (products : list RawProduct) : list RawProduct :=
  filter (fun p => has_name_and_url p) products.

(** Length of the run of iterations, ending just before iteration [i], that
    measured a count that did not increase. *)
Fixpoint stable_run (page : nat -> IterationObs) (i : nat) : nat :=
  match i with
  | O => O
  | S j => if not_increased page j then S (stable_run page j) else O
  end.

(** A page without the scroll container whose height and item count never
    change. *)
Definition still_page (i : nat) : IterationObs :=
  {| obs_hasContainer := false; obs_heights := fun _ => 1000;
     obs_currentCount := 3; obs_cards := []; obs_now := u16 "t" |}.

(** The string opens with a decimal literal: a digit, or a dot followed by
    a digit. *)
Definition starts_with_number (s : jsstring) : bool :=
  match s with
  | c :: r =>
      is_digit c ||
      ((c =? DOT)%N && match r with d :: _ => is_digit d | [] => false end)
  | [] => false
  end.

Definition head_not_digit (s : jsstring) : bool :=
  match s with c :: _ => negb (is_digit c) | [] => true end.

(** A record that [normalizeProduct] built from a card that passed the
    name-and-url filter. *)
Definition from_card (r : Product) : Prop :=
  exists c src ts, has_name_and_url c = true /\ r = normalizeProduct c src ts ts.

(** The union of two inputs as the spec words it: every record of both
    inputs, normalised, one per url. *)
Definition stated_union (S1 S2 : list RawProduct) (src t1 t2 : jsstring)
  : list Product :=
  dedupByUrl (((fun p => normalizeProduct p src t1 t1) <$> S1) ++
              ((fun p => normalizeProduct p src t2 t2) <$> S2)).

(** Sample cards. *)
Definition card (n u : string) : RawProduct :=
  {| raw_name := u16 n; raw_url := Some (u16 u); raw_uom := u16 "1kg";
     raw_priceText := PESO :: u16 "125"; raw_weightedPriceText := [];
     raw_image := u16 "i.png" |}.

Definition record (n u ts : string) : Product :=
  {| name := u16 n; url := Some (u16 u); uom := u16 "1kg";
     price := Some (125 # 1); priceText := PESO :: u16 "125";
     weightedPriceText := []; image := u16 "i.png";
     scrapedAt := u16 ts; sourceUrl := u16 "https://smmarkets.ph/c.html" |}.

Definition SRC : jsstring := u16 "https://smmarkets.ph/c.html".

(** ** Extraction ([scrapeCategory]) and the two [main] functions *)

(** What the selectors of [scrapeCategory] find inside one card: [None]
    when [querySelector] finds no node; for the anchor and the image, the
    value of the attribute read from the node, [null] ([None]) when the
    node lacks it. *)
Record DomCard := {
  dom_name : option jsstring;             (* a.item-name-23v span: textContent *)
  dom_href : option (option jsstring);    (* a.item-name-23v: href *)
  dom_uom : option jsstring;
  dom_price : option jsstring;
  dom_weightedPrice : option jsstring;
  dom_src : option (option jsstring);     (* img.image-loaded-ktU: src *)
}.

Definition getText (node : option jsstring) : jsstring :=
  match node with Some textContent => textContent | None => [] end.

Definition getHref (node : option (option jsstring)) : option jsstring :=
  match node with Some href => href | None => Some [] end.

Definition getImg (node : option (option jsstring)) : jsstring :=
  match node with Some src => or_empty src | None => [] end.

(** The in-page expression [t ? t.replace(/\s+/g, " ").trim() : dq] where
    [dq] is the empty string. *)
Definition collapse_and_trim (t : jsstring) : jsstring :=
  if truthy t then trim (replace_ws_runs t) else [].

(** The callback of [cards.map] in [scrapeCategory]. *)
Definition scrapeCard (card : DomCard) : RawProduct :=
  {| raw_name := collapse_and_trim (getText (dom_name card));
     raw_url := getHref (dom_href card);
     raw_uom := collapse_and_trim (getText (dom_uom card));
     raw_priceText := collapse_and_trim (getText (dom_price card));
     raw_weightedPriceText := collapse_and_trim (getText (dom_weightedPrice card));
     raw_image := getImg (dom_src card) |}.

(** [async function scrapeCategory(page)], on the cards that match the item
    selector. *)
Definition scrapeCategory (cards : list DomCard) : list RawProduct :=
  scrapeCard <$> cards.

(** The part of [main] of [scrape-sm.js] that writes: the scroll loop with
    its saves, the final extraction and the final write.  [out] is the
    resolved output path. *)
Definition scrape_main (page : nat -> IterationObs) (finalCards : list DomCard)
    (finalNow : jsstring) (out : string) (url : jsstring) (fs : FS) : FS * nat :=
  let jsonPath := out in
  let r := loadAllProducts page jsonPath url 5 fs in
  let products := scrapeCategory finalCards in
  writeFinalOutput products jsonPath url finalNow (final_fs r).

(** [jsonPath.replace(/\.json$/, ".csv")] *)
Fixpoint replace_json_suffix (s : string) : string :=
  match s with
  | EmptyString => EmptyString
  | String c r =>
      if String.eqb s ".json" then ".csv" else String c (replace_json_suffix r)
  end.

(** [main] of [convert-to-csv.js]; [json] and [csv] are the resolved values
    of the two options, [csv] being [None] when the option is not given. *)
Definition convert_main (json : string) (csv : option string) (fs : FS)
  : ConvertOutcome * FS :=
  let jsonPath := json in
  let csvPath :=
    match csv with
    | Some c => if path_truthy c then c else replace_json_suffix jsonPath
    | None => replace_json_suffix jsonPath
    end in
  convertJsonToCsv jsonPath csvPath fs.

(** The CSV row that carries the fields of a record as they are. *)
Definition row_of_record (r : Product) : CsvRow :=
  {| csv_name := name r; csv_url := or_empty (url r); csv_uom := uom r;
     csv_price := price r; csv_priceText := priceText r;
     csv_weightedPriceText := weightedPriceText r; csv_image := image r;
     csv_scrapedAt := scrapedAt r; csv_sourceUrl := sourceUrl r |}.

(** The sum of the pulses of all iterations. *)
Definition total_pulses (r : LoopResult) : nat := foldr Nat.add 0%nat (pulses r).

(** The height the fallback loop of [autoScroll] compares pulse [j]
    against. *)
Definition height_before (heights : nat -> Z) (j : nat) : Z :=
  match j with O => 0 | S k => heights k end.

(** The file at [jsonPath] is a document as an intermediate save writes it:
    metadata without [completed], and a products list whose length is the
    recorded total. *)
Definition saved_document (fs : FS) (jsonPath : string) : Prop :=
  exists m ps,
    fs !! jsonPath = Some (JsonFile {| metadata := Some m; products := Some ps |})
    /\ completed m = None /\ totalProducts m = length ps.

(** Every whole number up to this one is a double, so that [parseFloat]
    returns it exactly. *)
Definition max_exact_integer : Z := 2 ^ 53.

(** The batch, the source url and the clock of a write. *)
Definition op_cards (op : WriteOp) : list RawProduct :=
  match op with Incremental ps _ _ | Final ps _ _ => ps end.

Definition op_sourceUrl (op : WriteOp) : jsstring :=
  match op with Incremental _ src _ | Final _ src _ => src end.

Definition op_now (op : WriteOp) : jsstring :=
  match op with Incremental _ _ now | Final _ _ now => now end.

(** The record is what [normalizeProduct] built, at one of the writes of
    [ops], from a card of the batch of that write that has a name and a
    url. *)
Definition written_from (ops : list WriteOp) (r : Product) : Prop :=
  exists op c,
    op ∈ ops /\ c ∈ op_cards op /\ has_name_and_url c = true
    /\ r = normalizeProduct c (op_sourceUrl op) (op_now op) (op_now op).

(** The write is an intermediate save. *)
Definition is_incremental (op : WriteOp) : bool :=
  match op with Incremental _ _ _ => true | Final _ _ _ => false end.

(** * Theorems *)

(** ** Whitespace normalisation *)

Section Sanitize.

Lemma replace_ws_runs_from_collapsed (b : bool) (s : jsstring) :
  collapsed (replace_ws_runs_from b s) = true /\
  (b = true -> head_not_ws (replace_ws_runs_from b s) = true).
Proof.
  revert b. induction s as [|c r IH]; intros b; simpl.
  - split; reflexivity.
  - destruct (is_ws c) eqn:Hc.
    + destruct b.
      * apply IH.
      * split; [|discriminate]. simpl.
        destruct (IH true) as [H1 H2]. rewrite H1, H2 by reflexivity.
        reflexivity.
    + split.
      * simpl. rewrite Hc. apply IH.
      * intros _. simpl. now rewrite Hc.
Qed.

Lemma trimStart_collapsed (s : jsstring) :
  collapsed s = true -> collapsed (trimStart s) = true.
Proof.
  induction s as [|c r IH]; simpl; [reflexivity|].
  destruct (is_ws c) eqn:Hc; intros H.
  - apply IH. apply andb_true_iff in H. apply H.
  - simpl. now rewrite Hc in *.
Qed.

Lemma trimStart_head (s : jsstring) : head_not_ws (trimStart s) = true.
Proof.
  induction s as [|c r IH]; simpl; [reflexivity|].
  destruct (is_ws c) eqn:Hc; [assumption|]. simpl. now rewrite Hc.
Qed.

Lemma trimEnd_head (s : jsstring) :
  head_not_ws s = true -> head_not_ws (trimEnd s) = true.
Proof.
  destruct s as [|c r]; simpl; [reflexivity|].
  intros Hc. destruct (trimEnd r); [|exact Hc].
  apply negb_true_iff in Hc. rewrite Hc. simpl. now rewrite Hc.
Qed.

Lemma trimEnd_spaces_inside (s : jsstring) :
  collapsed s = true -> spaces_inside (trimEnd s) = true.
Proof.
  induction s as [|c r IH]; simpl; [reflexivity|].
  intros H. apply andb_true_iff in H as [Hc Hr].
  specialize (IH Hr).
  destruct (trimEnd r) as [|d r'] eqn:Ht.
  - destruct (is_ws c) eqn:Hw; [reflexivity|]. simpl. now rewrite Hw.
  - change (spaces_inside (c :: d :: r') = true).
    simpl spaces_inside at 1. simpl in IH. rewrite IH, andb_true_r.
    destruct (is_ws c) eqn:Hw; [|reflexivity].
    apply andb_true_iff in Hc as [Hsp Hh]. rewrite Hsp. simpl.
    pose proof (trimEnd_head r Hh) as Hd. rewrite Ht in Hd. exact Hd.
Qed.

(** The result of [sanitizeText] is whitespace-normalised, whatever the
    input. *)
Lemma sanitizeText_normalized (value : jsstring) :
  ws_normalized (sanitizeText value) = true.
Proof.
  unfold sanitizeText. destruct (truthy value); simpl; [|reflexivity].
  unfold ws_normalized, trim. apply andb_true_iff. split.
  - apply trimEnd_head, trimStart_head.
  - apply trimEnd_spaces_inside, trimStart_collapsed.
    apply (replace_ws_runs_from_collapsed false).
Qed.

Lemma filter_not_ws_replace (b : bool) (s : jsstring) :
  List.filter (fun c => negb (is_ws c)) (replace_ws_runs_from b s)
  = List.filter (fun c => negb (is_ws c)) s.
Proof.
  revert b. induction s as [|c r IH]; intros b; simpl; [reflexivity|].
  destruct (is_ws c) eqn:Hc; simpl.
  - destruct b; simpl; apply IH.
  - rewrite Hc. simpl. now rewrite IH.
Qed.

Lemma filter_not_ws_trimStart (s : jsstring) :
  List.filter (fun c => negb (is_ws c)) (trimStart s)
  = List.filter (fun c => negb (is_ws c)) s.
Proof.
  induction s as [|c r IH]; simpl; [reflexivity|].
  destruct (is_ws c) eqn:Hc; simpl; [exact IH|]. now rewrite Hc.
Qed.

Lemma filter_not_ws_trimEnd (s : jsstring) :
  List.filter (fun c => negb (is_ws c)) (trimEnd s)
  = List.filter (fun c => negb (is_ws c)) s.
Proof.
  induction s as [|c r IH]; simpl; [reflexivity|].
  destruct (trimEnd r) as [|d r'] eqn:Ht.
  - rewrite <- IH. destruct (is_ws c) eqn:Hc; simpl; [reflexivity|].
    now rewrite Hc.
  - simpl. destruct (is_ws c); simpl; now rewrite <- IH.
Qed.

(** [sanitizeText] only touches whitespace. *)
Lemma sanitizeText_keeps_text (value : jsstring) :
  List.filter (fun c => negb (is_ws c)) (sanitizeText value)
  = List.filter (fun c => negb (is_ws c)) value.
Proof.
  unfold sanitizeText. destruct value as [|c r]; [reflexivity|].
  cbn [truthy negb]. unfold trim, replace_ws_runs.
  now rewrite filter_not_ws_trimEnd, filter_not_ws_trimStart,
    filter_not_ws_replace.
Qed.

Lemma replace_fixes_spaces_inside (s : jsstring) :
  spaces_inside s = true -> replace_ws_runs_from false s = s.
Proof.
  induction s as [|c r IH]; simpl; [reflexivity|].
  intros H. apply andb_true_iff in H as [Hc Hr].
  destruct (is_ws c) eqn:Hw.
  - apply andb_true_iff in Hc as [Hsp Hnext].
    apply N.eqb_eq in Hsp. subst c. f_equal.
    destruct r as [|d r']; [discriminate|].
    apply negb_true_iff in Hnext. specialize (IH Hr).
    simpl in *. rewrite Hnext in *. exact IH.
  - f_equal. auto.
Qed.

Lemma trimEnd_fixes_spaces_inside (s : jsstring) :
  spaces_inside s = true -> trimEnd s = s.
Proof.
  induction s as [|c r IH]; simpl; [reflexivity|].
  intros H. apply andb_true_iff in H as [Hc Hr].
  rewrite (IH Hr). destruct r as [|d r']; [|reflexivity].
  destruct (is_ws c); [|reflexivity].
  apply andb_true_iff in Hc as [_ Hc]. discriminate.
Qed.

(** A normalised text is left as it is. *)
Lemma sanitizeText_fixes_normalized (s : jsstring) :
  ws_normalized s = true -> sanitizeText s = s.
Proof.
  unfold ws_normalized. intros H. apply andb_true_iff in H as [Hh Hs].
  unfold sanitizeText. destruct s as [|c r]; [reflexivity|].
  cbn [truthy negb]. unfold trim, replace_ws_runs.
  rewrite (replace_fixes_spaces_inside _ Hs).
  simpl in Hh. apply negb_true_iff in Hh.
  cbn [trimStart]. rewrite Hh.
  now apply trimEnd_fixes_spaces_inside.
Qed.

End Sanitize.

(** ** Incremental persistence *)

Section Persistence.

Implicit Types (fs : FS) (jsonPath : string) (ps : list RawProduct)
  (existing batch : list Product).

Lemma filter_all {A} (P : A -> Prop) `{!forall x, Decision (P x)} (l : list A) :
  (forall x, x ∈ l -> P x) -> filter P l = l.
Proof.
  induction l as [|x l IH]; intros Hall; [done|].
  rewrite filter_cons_True by (apply Hall; left).
  f_equal. apply IH. intros y Hy. apply Hall. now right.
Qed.

Lemma filter_none {A} (P : A -> Prop) `{!forall x, Decision (P x)} (l : list A) :
  (forall x, x ∈ l -> ~ P x) -> filter P l = [].
Proof.
  induction l as [|x l IH]; intros Hall; [done|].
  rewrite filter_cons_False by (apply Hall; left).
  apply IH. intros y Hy. apply Hall. now right.
Qed.

Lemma elem_of_url_set (u : option jsstring) existing :
  u ∈ url_set existing <-> u ∈ url <$> existing.
Proof. unfold url_set. apply elem_of_list_to_set. Qed.

Lemma normalized_urls ps src ts :
  url <$> normalized ps src ts = raw_url <$> kept ps.
Proof.
  unfold normalized, kept. rewrite <- list_fmap_compose.
  apply list_fmap_ext. intros _ p _. reflexivity.
Qed.

Lemma normalized_app ps1 ps2 src ts :
  normalized (ps1 ++ ps2) src ts = normalized ps1 src ts ++ normalized ps2 src ts.
Proof. unfold normalized. now rewrite filter_app, fmap_app. Qed.

Lemma file_products_save ps jsonPath src now fs :
  file_products (fst (saveProductsIncremental ps jsonPath src now fs)) jsonPath
  = merge_products (file_products fs jsonPath) (normalized ps src now).
Proof.
  unfold file_products, saveProductsIncremental. cbn [fst].
  unfold loadExistingProducts at 1. now rewrite lookup_insert_eq.
Qed.

Lemma file_products_final ps jsonPath src now fs :
  file_products (fst (writeFinalOutput ps jsonPath src now fs)) jsonPath
  = normalized ps src now.
Proof.
  unfold file_products, writeFinalOutput. cbn [fst].
  unfold loadExistingProducts. now rewrite lookup_insert_eq.
Qed.

Lemma file_products_absent fs jsonPath :
  fs !! jsonPath = None -> file_products fs jsonPath = [].
Proof. unfold file_products, loadExistingProducts. now intros ->. Qed.

Lemma merge_products_nil batch : merge_products [] batch = batch.
Proof.
  unfold merge_products. cbn [app]. apply filter_all.
  intros p _. rewrite elem_of_url_set. apply not_elem_of_nil.
Qed.

(** A save keeps what the file held, in place and unchanged, and appends. *)
Lemma merge_products_prefix existing batch :
  existing `prefix_of` merge_products existing batch.
Proof. unfold merge_products. now apply prefix_app_r. Qed.

(** At the level of the file: an incremental save never drops or alters a
    record that the file already held. *)
Lemma save_keeps_persisted_records ps jsonPath src now fs :
  file_products fs jsonPath
    `prefix_of` file_products (fst (saveProductsIncremental ps jsonPath src now fs)) jsonPath.
Proof. rewrite file_products_save. apply merge_products_prefix. Qed.

Lemma merge_products_urls existing batch (u : option jsstring) :
  u ∈ url <$> merge_products existing batch
  <-> u ∈ url <$> existing \/ u ∈ url <$> batch.
Proof.
  unfold merge_products. rewrite fmap_app, elem_of_app.
  split.
  - intros [H|H]; [now left|]. right.
    apply list_elem_of_fmap in H as (p & -> & Hp).
    apply list_elem_of_filter in Hp as [_ Hp].
    now apply list_elem_of_fmap_2.
  - intros [H|H]; [now left|].
    destruct (decide (u ∈ url <$> existing)) as [Hin|Hout]; [now left|].
    right. apply list_elem_of_fmap in H as (p & -> & Hp).
    apply list_elem_of_fmap_2, list_elem_of_filter. split; [|exact Hp].
    now rewrite elem_of_url_set.
Qed.

(** Nothing is appended when every url of the batch is already there. *)
Lemma merge_products_known existing batch :
  (forall p, p ∈ batch -> url p ∈ url <$> existing) ->
  merge_products existing batch = existing.
Proof.
  intros H. unfold merge_products.
  rewrite filter_none; [apply app_nil_r|].
  intros p Hp Hnot. apply Hnot. rewrite elem_of_url_set. auto.
Qed.

Lemma NoDup_fmap_filter {A B} (f : A -> B) (P : A -> Prop)
    `{!forall x, Decision (P x)} (l : list A) :
  NoDup (f <$> l) -> NoDup (f <$> filter P l).
Proof.
  induction l as [|x l IH]; [done|].
  rewrite fmap_cons, NoDup_cons. intros [Hx Hl].
  destruct (decide (P x)).
  - rewrite filter_cons_True by done. rewrite fmap_cons, NoDup_cons.
    split; [|auto]. intros Hin. apply Hx.
    apply list_elem_of_fmap in Hin as (y & -> & Hy).
    apply list_elem_of_filter in Hy as [_ Hy].
    now apply list_elem_of_fmap_2.
  - rewrite filter_cons_False by done. auto.
Qed.

(** Urls stay pairwise distinct when the batch itself has no repeated url. *)
Lemma merge_products_NoDup existing batch :
  NoDup (url <$> existing) -> NoDup (url <$> batch) ->
  NoDup (url <$> merge_products existing batch).
Proof.
  intros He Hb. unfold merge_products. rewrite fmap_app.
  apply NoDup_app. split; [exact He|]. split.
  - intros u Hu Hin.
    apply list_elem_of_fmap in Hin as (p & -> & Hp).
    apply list_elem_of_filter in Hp as [Hp _].
    apply Hp. now rewrite elem_of_url_set.
  - now apply NoDup_fmap_filter.
Qed.

Lemma dedupByUrl_NoDup (l : list Product) :
  NoDup (url <$> l) -> dedupByUrl l = l.
Proof.
  induction l as [|p r IH]; [done|].
  rewrite fmap_cons, NoDup_cons. intros [Hp Hr]. cbn.
  rewrite (IH Hr). f_equal. apply filter_all.
  intros q Hq Heq. apply Hp. rewrite <- Heq. now apply list_elem_of_fmap_2.
Qed.

Lemma dedupByUrl_app (l1 l2 : list Product) :
  dedupByUrl (l1 ++ l2)
  = dedupByUrl l1 ++ filter (fun q => url q ∉ url <$> l1) (dedupByUrl l2).
Proof.
  induction l1 as [|p r IH]; cbn [app dedupByUrl].
  - symmetry. apply filter_all. intros q _. apply not_elem_of_nil.
  - rewrite IH, filter_app, list_filter_filter. f_equal. f_equal.
    apply list_filter_iff. intros q. rewrite fmap_cons, not_elem_of_cons.
    tauto.
Qed.

Lemma file_metadata_save ps jsonPath src now fs :
  file_metadata (fst (saveProductsIncremental ps jsonPath src now fs)) jsonPath
  = Some {| md_sourceUrl := src; md_scrapedAt := now;
            totalProducts :=
              length (file_products
                        (fst (saveProductsIncremental ps jsonPath src now fs)) jsonPath);
            lastSavedAt := Some now; completed := None |}.
Proof.
  rewrite file_products_save.
  unfold file_metadata, saveProductsIncremental. cbn [fst].
  now rewrite lookup_insert_eq.
Qed.

Lemma file_metadata_final ps jsonPath src now fs :
  file_metadata (fst (writeFinalOutput ps jsonPath src now fs)) jsonPath
  = Some {| md_sourceUrl := src; md_scrapedAt := now;
            totalProducts := length (normalized ps src now);
            lastSavedAt := None; completed := Some true |}.
Proof.
  unfold file_metadata, writeFinalOutput. cbn [fst].
  now rewrite lookup_insert_eq.
Qed.

Lemma normalized_from_card ps src ts :
  Forall from_card (normalized ps src ts).
Proof.
  apply Forall_forall. intros r Hr. unfold normalized in Hr.
  apply list_elem_of_fmap in Hr as (c & -> & Hc).
  apply list_elem_of_filter in Hc as [Hc _].
  exists c, src, ts. split; [now apply Is_true_true|reflexivity].
Qed.

Lemma merge_products_Forall (P : Product -> Prop) existing batch :
  Forall P existing -> Forall P batch -> Forall P (merge_products existing batch).
Proof.
  intros He Hb. unfold merge_products. apply Forall_app. split; [exact He|].
  rewrite Forall_forall in *. intros r Hr.
  apply list_elem_of_filter in Hr as [_ Hr]. auto.
Qed.

Lemma apply_write_from_card jsonPath fs op :
  Forall from_card (file_products fs jsonPath) ->
  Forall from_card (file_products (apply_write jsonPath fs op) jsonPath).
Proof.
  intros H. destruct op as [ps src now|ps src now]; cbn [apply_write].
  - rewrite file_products_save.
    apply merge_products_Forall; [exact H|apply normalized_from_card].
  - rewrite file_products_final. apply normalized_from_card.
Qed.

Lemma apply_writes_from_card jsonPath ops fs :
  Forall from_card (file_products fs jsonPath) ->
  Forall from_card (file_products (apply_writes jsonPath fs ops) jsonPath).
Proof.
  revert fs. induction ops as [|op ops IH]; intros fs H; [exact H|].
  unfold apply_writes. cbn [fold_left]. apply IH.
  now apply apply_write_from_card.
Qed.

(** Over incremental saves whose batches never repeat a url among the
    cards they keep, the urls of the file stay pairwise distinct. *)
Lemma incremental_saves_NoDup jsonPath (batches : list (list RawProduct * jsstring * jsstring)) fs :
  NoDup (url <$> file_products fs jsonPath) ->
  Forall (fun b => NoDup (raw_url <$> kept b.1.1)) batches ->
  NoDup (url <$> file_products
           (apply_writes jsonPath fs
              ((fun b => Incremental b.1.1 b.1.2 b.2) <$> batches)) jsonPath).
Proof.
  revert fs. induction batches as [|[[ps src] now] bs IH]; intros fs Hfs Hb.
  - exact Hfs.
  - apply Forall_cons in Hb as [Hb Hbs].
    rewrite fmap_cons. unfold apply_writes. cbn [fold_left].
    apply IH; [|exact Hbs]. cbn [apply_write fst snd].
    rewrite file_products_save. apply merge_products_NoDup; [exact Hfs|].
    now rewrite normalized_urls.
Qed.

End Persistence.

(** ** The claims about the output file *)

(** C1.  The spec says that the file never holds two records with one url,
    even when one extracted batch carries the url twice.  The code removes
    only the urls that the file already holds: on a missing file, a batch
    with two cards of url [/p.html] is written with both records. *)
Theorem C1_batch_duplicates_are_persisted :
  let batch := [card "A" "/p.html"; card "B" "/p.html"] in
  let fs := apply_writes "products.json" ∅ [Incremental batch SRC (u16 "t1")] in
  file_products fs "products.json"
    = [record "A" "/p.html" "t1"; record "B" "/p.html" "t1"]
  /\ ¬ NoDup (url <$> file_products fs "products.json").
Proof.
  assert (E : file_products
            (apply_writes "products.json" ∅
               [Incremental [card "A" "/p.html"; card "B" "/p.html"] SRC (u16 "t1")])
            "products.json"
          = [record "A" "/p.html" "t1"; record "B" "/p.html" "t1"])
    by (vm_compute; reflexivity).
  cbv zeta. rewrite E. split; [reflexivity|].
  intros H. apply NoDup_cons in H as [H _]. apply H. cbn. left.
Qed.

(** C2.  The spec says that no later write changes or drops a persisted
    record, the final write of a run included.  [writeFinalOutput] does not
    read the file: the record saved at [t1] is replaced by one stamped [t2]
    when the final extraction shows the same card, and is gone when it does
    not. *)
Theorem C2_final_write_replaces_persisted_records :
  let saved := apply_writes "products.json" ∅ [Incremental [card "A" "/a.html"] SRC (u16 "t1")] in
  let same_page := apply_writes "products.json" saved [Final [card "A" "/a.html"] SRC (u16 "t2")] in
  let other_page := apply_writes "products.json" saved [Final [card "B" "/b.html"] SRC (u16 "t2")] in
  file_products saved "products.json" = [record "A" "/a.html" "t1"]
  /\ file_products same_page "products.json" = [record "A" "/a.html" "t2"]
  /\ (record "A" "/a.html" "t1" ∉ file_products same_page "products.json")
  /\ file_products other_page "products.json" = [record "B" "/b.html" "t2"]
  /\ (Some (u16 "/a.html") ∉ url <$> file_products other_page "products.json").
Proof.
  cbv zeta.
  assert (E1 : file_products
            (apply_writes "products.json" ∅ [Incremental [card "A" "/a.html"] SRC (u16 "t1")])
            "products.json" = [record "A" "/a.html" "t1"])
    by (vm_compute; reflexivity).
  split; [exact E1|].
  unfold apply_writes at 1 3 5. cbn [fold_left apply_write].
  rewrite !file_products_final.
  assert (E2 : normalized [card "A" "/a.html"] SRC (u16 "t2") = [record "A" "/a.html" "t2"])
    by (vm_compute; reflexivity).
  assert (E3 : normalized [card "B" "/b.html"] SRC (u16 "t2") = [record "B" "/b.html" "t2"])
    by (vm_compute; reflexivity).
  rewrite E2, E3. repeat split.
  - intros H. apply list_elem_of_singleton in H. discriminate H.
  - intros H. cbn in H. apply list_elem_of_singleton in H. discriminate H.
Qed.

(** C3, as stated, fails: a card without a name is dropped by the
    [p.name && p.url] filter and is not in the file, while the
    url-deduplicated union of the inputs holds it. *)
Lemma C3_nameless_card_is_dropped :
  let S1 := [card EmptyString "/a.html"] in
  let fs1 := fst (saveProductsIncremental S1 "products.json" SRC (u16 "t1") ∅) in
  let fs2 := fst (saveProductsIncremental (S1 ++ []) "products.json" SRC (u16 "t2") fs1) in
  file_products fs2 "products.json" = []
  /\ stated_union S1 [] SRC (u16 "t1") (u16 "t2") = [record EmptyString "/a.html" "t1"]
  /\ file_products fs2 "products.json" <> stated_union S1 [] SRC (u16 "t1") (u16 "t2").
Proof.
  cbv zeta.
  assert (E1 : file_products
     (fst (saveProductsIncremental ([card EmptyString "/a.html"] ++ []) "products.json" SRC (u16 "t2")
        (fst (saveProductsIncremental [card EmptyString "/a.html"] "products.json" SRC (u16 "t1") ∅))))
     "products.json" = []) by (vm_compute; reflexivity).
  assert (E2 : stated_union [card EmptyString "/a.html"] [] SRC (u16 "t1") (u16 "t2")
               = [record EmptyString "/a.html" "t1"]) by (vm_compute; reflexivity).
  rewrite E1, E2. repeat split. discriminate.
Qed.

(** C3, amended.  Starting from a missing file, a save of [S1] followed by
    a save of [S1 ++ S2] leaves the url-deduplicated union of the records
    built from the cards of [S1] and [S2] that have a name and a url,
    provided neither input repeats a url among those cards; and
    [totalProducts] is the length of that list. *)
Theorem C3_two_saves_give_deduplicated_union
    (S1 S2 : list RawProduct) (jsonPath : string) (src t1 t2 : jsstring) (fs : FS) :
  fs !! jsonPath = None ->
  NoDup (raw_url <$> kept S1) ->
  NoDup (raw_url <$> kept S2) ->
  let fs1 := fst (saveProductsIncremental S1 jsonPath src t1 fs) in
  let fs2 := fst (saveProductsIncremental (S1 ++ S2) jsonPath src t2 fs1) in
  let union := dedupByUrl (normalized S1 src t1 ++ normalized S2 src t2) in
  file_products fs2 jsonPath = union
  /\ (totalProducts <$> file_metadata fs2 jsonPath) = Some (length union).
Proof.
  intros Habs H1 H2. cbv zeta.
  assert (E : file_products
            (fst (saveProductsIncremental (S1 ++ S2) jsonPath src t2
               (fst (saveProductsIncremental S1 jsonPath src t1 fs)))) jsonPath
          = dedupByUrl (normalized S1 src t1 ++ normalized S2 src t2)).
  { rewrite !file_products_save, (file_products_absent _ _ Habs).
    rewrite merge_products_nil, normalized_app, dedupByUrl_app.
    rewrite !dedupByUrl_NoDup by now rewrite normalized_urls.
    unfold merge_products. f_equal. rewrite filter_app.
    rewrite filter_none; [cbn [app]|].
    - apply list_filter_iff. intros q. now rewrite elem_of_url_set.
    - intros q Hq Hnot. apply Hnot. rewrite elem_of_url_set.
      rewrite normalized_urls. rewrite <- (normalized_urls S1 src t2).
      now apply list_elem_of_fmap_2. }
  split; [exact E|].
  rewrite <- E, file_metadata_save. reflexivity.
Qed.

Lemma C3_two_saves_witness :
  let S1 := [card "A" "/a.html"] in
  let S2 := [card "A2" "/a.html"; card "B" "/b.html"] in
  let fs2 := fst (saveProductsIncremental (S1 ++ S2) "products.json" SRC (u16 "t2")
               (fst (saveProductsIncremental S1 "products.json" SRC (u16 "t1") ∅))) in
  ((∅ : FS) !! "products.json" = None
   /\ NoDup (raw_url <$> kept S1) /\ NoDup (raw_url <$> kept S2))
  /\ file_products fs2 "products.json"
     = dedupByUrl (normalized S1 SRC (u16 "t1") ++ normalized S2 SRC (u16 "t2"))
  /\ (totalProducts <$> file_metadata fs2 "products.json")
     = Some (length (dedupByUrl (normalized S1 SRC (u16 "t1") ++
                                 normalized S2 SRC (u16 "t2")))).
Proof.
  cbv zeta.
  assert (H0 : (∅ : FS) !! "products.json" = None) by reflexivity.
  assert (H1 : NoDup (raw_url <$> kept [card "A" "/a.html"]))
    by (apply (bool_decide_unpack _); vm_compute; exact I).
  assert (H2 : NoDup (raw_url <$> kept [card "A2" "/a.html"; card "B" "/b.html"]))
    by (apply (bool_decide_unpack _); vm_compute; exact I).
  split; [auto|].
  exact (C3_two_saves_give_deduplicated_union _ _ "products.json" SRC
           (u16 "t1") (u16 "t2") ∅ H0 H1 H2).
Defined.

(** C4.  Saving the same batch twice in a row: the second save leaves the
    products list of the file exactly as the first one wrote it (nothing
    added, every record as it was), and returns its length. *)
Theorem C4_save_is_idempotent
    (S : list RawProduct) (jsonPath : string) (src now1 now2 : jsstring) (fs : FS) :
  let fs1 := fst (saveProductsIncremental S jsonPath src now1 fs) in
  let again := saveProductsIncremental S jsonPath src now2 fs1 in
  file_products (fst again) jsonPath = file_products fs1 jsonPath
  /\ snd again = length (file_products fs1 jsonPath).
Proof.
  cbv zeta.
  assert (E : file_products
            (fst (saveProductsIncremental S jsonPath src now2
               (fst (saveProductsIncremental S jsonPath src now1 fs)))) jsonPath
          = file_products (fst (saveProductsIncremental S jsonPath src now1 fs)) jsonPath).
  { rewrite (file_products_save S jsonPath src now2).
    apply merge_products_known. intros p Hp.
    rewrite file_products_save. apply merge_products_urls. right.
    rewrite normalized_urls, <- (normalized_urls S src now2).
    now apply list_elem_of_fmap_2. }
  split; [exact E|].
  rewrite <- E at 1. rewrite file_products_save. reflexivity.
Qed.

(** C8.  Whatever the file held before, the metadata written by an
    intermediate save has no [completed] field, and the metadata written by
    the final write has [completed: true]. *)
Theorem C8_completed_only_on_final_write
    (jsonPath : string) (fs : FS) (op : WriteOp) :
  exists m, file_metadata (apply_write jsonPath fs op) jsonPath = Some m
    /\ completed m = match op with
                     | Incremental _ _ _ => None
                     | Final _ _ _ => Some true
                     end.
Proof.
  destruct op as [ps src now|ps src now]; cbn [apply_write].
  - rewrite file_metadata_save. eexists. split; reflexivity.
  - rewrite file_metadata_final. eexists. split; reflexivity.
Qed.

(** C10.  When the output file is missing or holds text that is not JSON,
    [loadExistingProducts] returns the empty list, and the next save
    writes a document whose products are exactly the records of the new
    batch: what a corrupt file held is not kept. *)
Theorem C10_missing_or_corrupt_file_starts_fresh
    (ps : list RawProduct) (jsonPath : string) (src now : jsstring) (fs : FS) :
  (fs !! jsonPath = None \/ exists raw, fs !! jsonPath = Some (Unparseable raw)) ->
  loadExistingProducts fs jsonPath = []
  /\ fst (saveProductsIncremental ps jsonPath src now fs) !! jsonPath
     = Some (JsonFile
         {| metadata := Some {| md_sourceUrl := src; md_scrapedAt := now;
                                totalProducts := length (normalized ps src now);
                                lastSavedAt := Some now; completed := None |};
            products := Some (normalized ps src now) |})
  /\ snd (saveProductsIncremental ps jsonPath src now fs)
     = length (normalized ps src now).
Proof.
  intros H.
  assert (E : loadExistingProducts fs jsonPath = []).
  { unfold loadExistingProducts. destruct H as [-> | [raw ->]]; reflexivity. }
  split; [exact E|].
  unfold saveProductsIncremental. cbn [fst snd].
  rewrite lookup_insert_eq, E, merge_products_nil. split; reflexivity.
Qed.

Lemma C10_corrupt_file_witness :
  let fs : FS := {[ "products.json" := Unparseable (u16 "{ products: [") ]} in
  (fs !! "products.json" = None
   \/ exists raw, fs !! "products.json" = Some (Unparseable raw))
  /\ loadExistingProducts fs "products.json" = []
  /\ file_products
       (fst (saveProductsIncremental [card "A" "/a.html"] "products.json" SRC (u16 "t1") fs))
       "products.json" = [record "A" "/a.html" "t1"].
Proof.
  cbv zeta.
  assert (H : ({[ "products.json" := Unparseable (u16 "{ products: [") ]} : FS)
                !! "products.json" = None
              \/ exists raw, ({[ "products.json" := Unparseable (u16 "{ products: [") ]} : FS)
                               !! "products.json" = Some (Unparseable raw)).
  { right. eexists. reflexivity. }
  split; [exact H|].
  destruct (C10_missing_or_corrupt_file_starts_fresh [card "A" "/a.html"]
              "products.json" SRC (u16 "t1") _ H) as (E1 & E2 & _).
  split; [exact E1|].
  unfold file_products, loadExistingProducts. rewrite E2. reflexivity.
Defined.

(** C9, as stated, fails: [normalizeProduct] copies [url] and [image] as
    they are.  A card whose [href] holds a run of two spaces is persisted
    with that very url, which is not whitespace-normalised. *)
Lemma C9_url_is_not_sanitized :
  let c := card "A" " /a  b.html " in
  let fs := fst (saveProductsIncremental [c] "products.json" SRC (u16 "t1") ∅) in
  file_products fs "products.json" = [record "A" " /a  b.html " "t1"]
  /\ all_text_fields_normalized (record "A" " /a  b.html " "t1") = false.
Proof. cbv zeta. split; vm_compute; reflexivity. Qed.

Lemma written_from_more (ops1 ops2 : list WriteOp) (r : Product) :
  written_from ops1 r -> written_from (ops1 ++ ops2) r.
Proof.
  intros (op & c & Hop & Hc & Hk & E). exists op, c.
  split; [apply elem_of_app; now left|auto].
Qed.

Lemma normalized_written_from (ops : list WriteOp) (op : WriteOp) :
  op ∈ ops ->
  Forall (written_from ops)
    (normalized (op_cards op) (op_sourceUrl op) (op_now op)).
Proof.
  intros Hop. apply Forall_forall. intros r Hr. unfold normalized in Hr.
  apply list_elem_of_fmap in Hr as (c & -> & Hc).
  apply list_elem_of_filter in Hc as [Hk Hc].
  exists op, c. repeat split; [exact Hop|exact Hc|now apply Is_true_true].
Qed.

Lemma apply_write_written_from (jsonPath : string) (fs : FS)
    (done : list WriteOp) (op : WriteOp) :
  Forall (written_from done) (file_products fs jsonPath) ->
  Forall (written_from (done ++ [op]))
    (file_products (apply_write jsonPath fs op) jsonPath).
Proof.
  intros H.
  assert (Hop : op ∈ done ++ [op]) by (apply elem_of_app; right; left).
  pose proof (normalized_written_from _ _ Hop) as Hnew.
  destruct op as [ps src now|ps src now]; cbn [apply_write].
  - rewrite file_products_save. apply merge_products_Forall; [|exact Hnew].
    eapply Forall_impl; [exact H|]. intros r. apply written_from_more.
  - rewrite file_products_final. exact Hnew.
Qed.

(** Every record of the file comes from a card of one of the batches
    written so far. *)
Lemma apply_writes_written_from (jsonPath : string) (ops : list WriteOp) :
  forall (fs : FS) (done : list WriteOp),
    Forall (written_from done) (file_products fs jsonPath) ->
    Forall (written_from (done ++ ops))
      (file_products (apply_writes jsonPath fs ops) jsonPath).
Proof.
  induction ops as [|op ops IH]; intros fs done H.
  - now rewrite app_nil_r.
  - change (apply_writes jsonPath fs (op :: ops))
      with (apply_writes jsonPath (apply_write jsonPath fs op) ops).
    replace (done ++ op :: ops) with ((done ++ [op]) ++ ops)
      by now rewrite <- app_assoc.
    apply IH. now apply apply_write_written_from.
Qed.

(** C9, amended.  [normalizeProduct] whitespace-normalises [name], [uom],
    [priceText] and [weightedPriceText] (runs of whitespace collapsed to
    one space, ends trimmed) and copies [url] and [image] as they are.
    Hence every record of the output file, after any sequence of writes
    that starts with the file missing, is the record built from a card of
    one of the written batches, a card with a name and a url: those four
    fields are the sanitised texts of that card, and [url] and [image] are
    that card's values, exactly as extracted.  And [sanitizeText] maps the
    text [  a   b\n c ] to [a b c]. *)
Theorem C9_sanitized_fields_of_persisted_records :
  sanitizeText (u16 "  a   b" ++ [10%N] ++ u16 " c ") = u16 "a b c"
  /\ (forall (p : RawProduct) (src ts now : jsstring),
        let r := normalizeProduct p src ts now in
        (name r = sanitizeText (raw_name p) /\ uom r = sanitizeText (raw_uom p)
         /\ priceText r = sanitizeText (raw_priceText p)
         /\ weightedPriceText r = sanitizeText (raw_weightedPriceText p))
        /\ (ws_normalized (name r) = true /\ ws_normalized (uom r) = true
            /\ ws_normalized (priceText r) = true
            /\ ws_normalized (weightedPriceText r) = true)
        /\ url r = raw_url p /\ image r = raw_image p)
  /\ forall (jsonPath : string) (fs : FS) (ops : list WriteOp) (r : Product),
       fs !! jsonPath = None ->
       r ∈ file_products (apply_writes jsonPath fs ops) jsonPath ->
       (ws_normalized (name r) = true /\ ws_normalized (uom r) = true
        /\ ws_normalized (priceText r) = true
        /\ ws_normalized (weightedPriceText r) = true)
       /\ exists op c,
            op ∈ ops /\ c ∈ op_cards op /\ has_name_and_url c = true
            /\ r = normalizeProduct c (op_sourceUrl op) (op_now op) (op_now op)
            /\ name r = sanitizeText (raw_name c)
            /\ uom r = sanitizeText (raw_uom c)
            /\ priceText r = sanitizeText (raw_priceText c)
            /\ weightedPriceText r = sanitizeText (raw_weightedPriceText c)
            /\ url r = raw_url c /\ image r = raw_image c.
Proof.
  split; [reflexivity|]. split.
  - intros p src ts now. cbv zeta.
    cbn [normalizeProduct name uom priceText weightedPriceText url image].
    repeat split; apply sanitizeText_normalized.
  - intros jsonPath fs ops r Habs Hr.
    assert (Hall : Forall (written_from ([] ++ ops))
                     (file_products (apply_writes jsonPath fs ops) jsonPath)).
    { apply apply_writes_written_from.
      rewrite (file_products_absent _ _ Habs). constructor. }
    rewrite Forall_forall in Hall.
    destruct (Hall r Hr) as (op & c & Hop & Hc & Hk & ->).
    cbn [normalizeProduct name uom priceText weightedPriceText url image].
    split.
    + repeat split; apply sanitizeText_normalized.
    + exists op, c. repeat split; assumption.
Qed.

Lemma C9_sanitized_fields_witness :
  let ops := [Incremental [card " A   1 " " /a  b.html "] SRC (u16 "t1")] in
  let r := {| name := u16 "A 1"; url := Some (u16 " /a  b.html "); uom := u16 "1kg";
              price := Some (125 # 1); priceText := PESO :: u16 "125";
              weightedPriceText := []; image := u16 "i.png";
              scrapedAt := u16 "t1"; sourceUrl := SRC |} in
  ((∅ : FS) !! "products.json" = None
   /\ r ∈ file_products (apply_writes "products.json" ∅ ops) "products.json")
  /\ ws_normalized (name r) = true.
Proof.
  cbv zeta.
  assert (H0 : (∅ : FS) !! "products.json" = None) by reflexivity.
  assert (H1 : {| name := u16 "A 1"; url := Some (u16 " /a  b.html "); uom := u16 "1kg";
              price := Some (125 # 1); priceText := PESO :: u16 "125";
              weightedPriceText := []; image := u16 "i.png";
              scrapedAt := u16 "t1"; sourceUrl := SRC |}
            ∈ file_products (apply_writes "products.json" ∅
                [Incremental [card " A   1 " " /a  b.html "] SRC (u16 "t1")]) "products.json").
  { vm_compute. left. }
  split; [auto|].
  exact (proj1 (proj1 (proj2 (proj2 C9_sanitized_fields_of_persisted_records)
                         "products.json" ∅ _ _ H0 H1))).
Defined.

(** ** CSV conversion *)

(** C6.  [convertJsonToCsv] leaves through one of its two [process.exit(1)]
    checks exactly when the JSON file is missing or its products list has no
    entry; in that case the status is 1 and the file system is untouched, so
    no CSV file is written.  In every other case it passes both checks. *)
Theorem C6_conversion_exit_checks (jsonPath csvPath : string) (fs : FS) :
  let r := convertJsonToCsv jsonPath csvPath fs in
  (exits_at_check (fst r) = true
   <-> fs !! jsonPath = None \/ input_products fs jsonPath = Some [])
  /\ (if exits_at_check (fst r)
      then exit_status (fst r) = Some 1 /\ snd r = fs
      else fst r = Thrown /\ snd r = fs /\ input_products fs jsonPath = None
           \/ exists ps, input_products fs jsonPath = Some ps /\ ps <> []
                /\ fst r = Converted (length ps)
                /\ exists rows, length rows = length ps
                     /\ snd r = <[csvPath := CsvFile csv_columns rows]> fs).
Proof.
  cbv zeta. unfold convertJsonToCsv, input_products.
  destruct (fs !! jsonPath) as [[raw|d|h rows]|] eqn:E; cbn.
  - split; [split; [discriminate|intros [?|?]; discriminate]|]. left. auto.
  - destruct (products d) as [[|p ps]|]; cbn.
    + split; [split; auto|]. auto.
    + split; [split; [discriminate|intros [?|?]; discriminate]|].
      right. exists (p :: ps). split; [reflexivity|]. split; [discriminate|].
      split; [now rewrite length_fmap|].
      eexists. split; [|reflexivity]. cbn. now rewrite length_fmap.
    + split; [split; auto|]. auto.
  - split; [split; [discriminate|intros [?|?]; discriminate]|]. left. auto.
  - split; [split; auto|]. auto.
Qed.

(** ** Price parsing *)

Section PriceFacts.

Lemma cleaned_filter (text : jsstring) :
  cleaned text = List.filter (fun c => is_digit c || (c =? DOT)%N) text.
Proof.
  unfold cleaned. induction text as [|c r IH]; [reflexivity|].
  cbn [List.filter]. unfold in_price_class at 1.
  destruct (is_digit c) eqn:Hd; cbn [orb].
  - cbn [List.filter].
    assert (Hc : (c =? COMMA)%N = false).
    { apply N.eqb_neq. intros ->. discriminate Hd. }
    rewrite Hc. cbn [negb]. now rewrite IH.
  - destruct (c =? DOT)%N eqn:Hdot; cbn [orb].
    + cbn [List.filter].
      assert (Hc : (c =? COMMA)%N = false).
      { apply N.eqb_eq in Hdot. subst c. reflexivity. }
      rewrite Hc. cbn [negb]. now rewrite IH.
    + destruct (c =? COMMA)%N eqn:Hc; [|exact IH].
      cbn [List.filter]. rewrite Hc. exact IH.
Qed.

Lemma take_digits_spec (s : jsstring) :
  s = fst (take_digits s) ++ snd (take_digits s)
  /\ Forall (fun c => is_digit c = true) (fst (take_digits s))
  /\ head_not_digit (snd (take_digits s)) = true.
Proof.
  induction s as [|c r IH]; cbn [take_digits].
  - repeat split. constructor.
  - destruct (is_digit c) eqn:Hd.
    + destruct (take_digits r) as [ds rest]. cbn [fst snd] in *.
      destruct IH as (IH1 & IH2 & IH3). repeat split.
      * cbn. now f_equal.
      * now constructor.
      * exact IH3.
    + cbn [fst snd]. repeat split; [constructor|]. cbn. now rewrite Hd.
Qed.

Lemma of_decimal_not_NaN (ip fp : list N) : of_decimal ip fp <> NaN.
Proof. unfold of_decimal. now destruct (_ <=? _). Qed.

(** [parseFloat] gives [NaN] exactly on the strings that do not open with
    a decimal literal. *)
Lemma parseFloat_NaN (s : jsstring) :
  parseFloat s = NaN <-> starts_with_number s = false.
Proof.
  unfold parseFloat. destruct s as [|c r]; [easy|].
  cbn [take_digits starts_with_number].
  destruct (is_digit c) eqn:Hd; cbn [orb].
  - destruct (take_digits r) as [ds rest].
    split; [|discriminate]. intros H. exfalso.
    destruct rest as [|c' r']; [now apply of_decimal_not_NaN in H|].
    destruct (c' =? DOT)%N; [|now apply of_decimal_not_NaN in H].
    destruct (take_digits r'). now apply of_decimal_not_NaN in H.
  - destruct (c =? DOT)%N; cbn [andb]; [|easy].
    destruct r as [|d r']; cbn [take_digits]; [easy|].
    destruct (is_digit d); [|easy].
    destruct (take_digits r') as [ds rest].
    split; [|discriminate]. intros H. now apply of_decimal_not_NaN in H.
Qed.

Lemma digits_value_nonneg (ds : list N) (acc : Z) :
  0 <= acc -> Forall (fun c => is_digit c = true) ds ->
  0 <= fold_left (fun a c => 10 * a + digit_value c) ds acc.
Proof.
  revert acc. induction ds as [|c r IH]; intros acc Hacc Hds; [exact Hacc|].
  apply Forall_cons in Hds as [Hc Hr]. cbn [fold_left]. apply IH; [|exact Hr].
  unfold is_digit in Hc. apply andb_true_iff in Hc as [H1 H2].
  apply N.leb_le in H1, H2. unfold digit_value. lia.
Qed.

(** A number built from digit strings is non-negative and below the
    overflow bound: it rounds to a finite double. *)
Lemma of_decimal_Num (ip fp : list N) (q : Q) :
  Forall (fun c => is_digit c = true) (ip ++ fp) ->
  of_decimal ip fp = Num q ->
  (0 <= q)%Q /\ (q < inject_Z overflow_bound)%Q.
Proof.
  intros Hds. unfold of_decimal.
  set (m := digits_value (ip ++ fp)).
  set (d := 10 ^ Z.of_nat (length fp)).
  assert (Hd : 0 < d) by (apply Z.pow_pos_nonneg; lia).
  assert (Hm : 0 <= m) by (apply digits_value_nonneg; [lia|exact Hds]).
  destruct (overflow_bound * d <=? m) eqn:Hov; [discriminate|].
  apply Z.leb_gt in Hov. intros [= <-].
  rewrite (Qred_correct (m # Z.to_pos d)).
  unfold Qle, Qlt, inject_Z. cbn [Qnum Qden].
  rewrite Z2Pos.id by exact Hd. split; lia.
Qed.

Lemma parseFloat_Num (s : jsstring) (q : Q) :
  parseFloat s = Num q ->
  (0 <= q)%Q /\ (q < inject_Z overflow_bound)%Q.
Proof.
  unfold parseFloat.
  destruct (take_digits_spec s) as (_ & Hip & _).
  destruct (take_digits s) as [ip rest]. cbn [fst snd] in Hip.
  assert (Hnil : forall q', of_decimal ip [] = Num q' ->
                   (0 <= q')%Q /\ (q' < inject_Z overflow_bound)%Q).
  { intros q'. apply of_decimal_Num. now rewrite app_nil_r. }
  destruct rest as [|c r].
  - destruct ip; [discriminate|]. apply Hnil.
  - destruct (c =? DOT)%N.
    + destruct (take_digits_spec r) as (_ & Hfp & _).
      destruct (take_digits r) as [fp rest']. cbn [fst snd] in Hfp.
      assert (Hall : Forall (fun c => is_digit c = true) (ip ++ fp))
        by now apply Forall_app.
      destruct ip, fp; [discriminate|..]; now apply of_decimal_Num.
    + destruct ip; [discriminate|]. apply Hnil.
Qed.

End PriceFacts.

(** C7.  The four sample prices, and the general rule: [parsePrice] keeps
    the digits and dots of the text (every other unit, commas included, is
    deleted), reads the decimal literal at the start of what is left, and
    returns [null] exactly when there is none or when it is too large for a
    finite number; a number it returns is non-negative and finite. *)
Theorem C7_parsePrice :
  parsePrice (PESO :: u16 "125") = Some (Qred 125)
  /\ parsePrice (PESO :: u16 "1,250.50") = Some (Qred 1250.5)
  /\ parsePrice [] = None
  /\ parsePrice (u16 "N/A") = None
  /\ (forall text, cleaned text
                   = List.filter (fun c => is_digit c || (c =? DOT)%N) text)
  /\ (forall text, parsePrice text = finite_or_null (parseFloat (cleaned text)))
  /\ (forall text, parsePrice text = None
        <-> starts_with_number (cleaned text) = false
            \/ parseFloat (cleaned text) = PosInfinity)
  /\ (forall text q, parsePrice text = Some q ->
        (0 <= q)%Q /\ (q < inject_Z overflow_bound)%Q).
Proof.
  assert (G : forall text, parsePrice text = finite_or_null (parseFloat (cleaned text))).
  { intros [|c r]; reflexivity. }
  split; [vm_compute; reflexivity|].
  split; [vm_compute; reflexivity|].
  split; [reflexivity|].
  split; [vm_compute; reflexivity|].
  split; [exact cleaned_filter|].
  split; [exact G|].
  split.
  - intros text. rewrite G, <- (parseFloat_NaN (cleaned text)).
    destruct (parseFloat (cleaned text)); cbn [finite_or_null].
    + tauto.
    + tauto.
    + split; [discriminate|]. intros [?|?]; discriminate.
  - intros text q. rewrite G.
    destruct (parseFloat (cleaned text)) eqn:E; cbn [finite_or_null]; try discriminate.
    intros [= <-]. exact (parseFloat_Num _ _ E).
Qed.

(** ** The scroll loop *)

Section ScrollLoop.

Variable page : nat -> IterationObs.

Lemma stable_run_ge (m k : nat) :
  (k <= stable_run page m)%nat
  <-> (k <= m)%nat /\ forall j, (m - k <= j < m)%nat -> not_increased page j = true.
Proof.
  revert k. induction m as [|m IH]; intros k; cbn [stable_run].
  - split; [intros H; split; [exact H|intros j Hj; lia]|intros [H _]; exact H].
  - destruct k as [|k].
    + split; [intros _; split; [lia|intros j Hj; lia]|lia].
    + destruct (not_increased page m) eqn:Hm.
      * rewrite <- Nat.succ_le_mono, (IH k). split.
        -- intros [Hk Hall]. split; [lia|]. intros j Hj.
           destruct (decide (j = m)) as [->|Hne]; [exact Hm|].
           apply Hall. lia.
        -- intros [Hk Hall]. split; [lia|]. intros j Hj. apply Hall. lia.
      * split; [lia|]. intros [Hk Hall].
        rewrite (Hall m) in Hm by lia. discriminate.
Qed.

Lemma stable_at_run (i : nat) :
  stable_at page i = true <-> (maxStable <= stable_run page (S i))%nat.
Proof.
  unfold stable_at. rewrite andb_true_iff, Nat.leb_le, forallb_forall.
  rewrite stable_run_ge. split; intros [H1 H2]; (split; [exact H1|]).
  - intros j Hj. apply H2, in_seq. lia.
  - intros j Hj. apply in_seq in Hj. apply H2. lia.
Qed.

Lemma stable_at_false (i : nat) :
  stable_at page i = false <-> (stable_run page (S i) < maxStable)%nat.
Proof.
  rewrite <- not_true_iff_false, stable_at_run. lia.
Qed.

Lemma autoScroll_window_bounds (remaining j : nat) (heights : nat -> Z) (prev : Z) :
  (autoScroll_window remaining j heights prev <= remaining)%nat
  /\ ((1 <= remaining)%nat -> (1 <= autoScroll_window remaining j heights prev)%nat).
Proof.
  revert j prev. induction remaining as [|n IH]; intros j prev; cbn.
  - split; lia.
  - destruct (heights j =? prev); [split; lia|].
    destruct (IH (S j) (heights j)) as [H _]. split; lia.
Qed.

(** One call of [autoScroll] with [maxScrolls: 5]: five pulses on a page
    with the container, between one and five without it. *)
Lemma autoScroll_pulses (hasContainer : bool) (heights : nat -> Z) :
  (1 <= autoScroll hasContainer 5 heights <= 5)%nat
  /\ (hasContainer = true -> autoScroll hasContainer 5 heights = 5%nat).
Proof.
  unfold autoScroll. destruct hasContainer.
  - split; [lia|reflexivity].
  - destruct (autoScroll_window_bounds 5 0 heights 0) as [H1 H2].
    split; [lia|discriminate].
Qed.

Variables (jsonPath : string) (sourceUrl : jsstring) (saveInterval : nat).

(** The loop entered at iteration [i]: its counter is the length of the
    run of non-increasing counts so far, it leaves by [break] at the first
    iteration that brings the run to [maxStable], and it runs through all
    the remaining iterations when there is none. *)
Lemma loadAllProducts_loop_spec (remaining i : nat) (st : LoopState) (fs : FS) :
  previousCount st = count_before page i ->
  stableIterations st = stable_run page i ->
  (stable_run page i < maxStable)%nat ->
  let r := loadAllProducts_loop remaining i page jsonPath sourceUrl saveInterval st fs in
  let n := length (pulses r) in
  (n <= remaining)%nat
  /\ (forall k, (0 < k < n)%nat -> (stable_run page (i + k) < maxStable)%nat)
  /\ (if stabilized r
      then (0 < n)%nat /\ (maxStable <= stable_run page (i + n))%nat
      else n = remaining /\ (stable_run page (i + n) < maxStable)%nat)
  /\ (forall k, (k < n)%nat ->
        pulses r !! k
        = Some (autoScroll (obs_hasContainer (page (i + k))) 5
                  (obs_heights (page (i + k))))).
Proof.
  revert i st fs. induction remaining as [|rem IH]; intros i st fs Hprev Hst Hlt.
  - cbn. repeat split; try lia. now rewrite Nat.add_0_r.
  - cbn [loadAllProducts_loop].
    set (cur := Z.of_nat (obs_currentCount (page i))).
    match goal with
    | |- context [if ?c then fst ?a else fs] => set (fs' := if c then fst a else fs)
    end.
    assert (Hrun : stable_run page (S i)
                   = if cur <=? previousCount st then S (stable_run page i) else O).
    { cbn [stable_run]. unfold not_increased. fold cur. now rewrite Hprev. }
    destruct (cur <=? previousCount st) eqn:Hcmp.
    + rewrite Hst.
      destruct (maxStable <=? S (stable_run page i))%nat eqn:Hmax.
      * apply Nat.leb_le in Hmax. cbn.
        rewrite Nat.add_1_r, Hrun. repeat split; try lia.
        intros [|k] Hk; [now rewrite Nat.add_0_r|lia].
      * apply Nat.leb_gt in Hmax.
        specialize (IH (S i)
          {| previousCount := cur; stableIterations := S (stable_run page i) |} fs').
        cbn [previousCount stableIterations count_before] in IH.
        rewrite Hrun in IH. specialize (IH eq_refl eq_refl Hmax).
        cbv zeta in IH. destruct IH as (I1 & I2 & I3 & I4).
        cbn [ran pulses stabilized length].
        set (r := loadAllProducts_loop rem (S i) page jsonPath sourceUrl saveInterval _ fs') in *.
        split; [lia|]. split; [|split].
        -- intros [|[|k]] Hk; [lia| |].
           ++ rewrite Nat.add_1_r, Hrun. exact Hmax.
           ++ replace (i + S (S k))%nat with (S i + S k)%nat by lia.
              apply I2. lia.
        -- replace (i + S (length (pulses r)))%nat
             with (S i + length (pulses r))%nat by lia.
           destruct (stabilized r); [split; [lia|apply I3]|split; [lia|apply I3]].
        -- intros [|k] Hk; [now rewrite Nat.add_0_r|].
           replace (i + S k)%nat with (S i + k)%nat by lia.
           cbn. apply I4. lia.
    + specialize (IH (S i) {| previousCount := cur; stableIterations := 0 |} fs').
      cbn [previousCount stableIterations count_before] in IH.
      rewrite Hrun in IH.
      assert (H0 : (0 < maxStable)%nat) by (unfold maxStable; lia).
      specialize (IH eq_refl eq_refl H0).
      cbv zeta in IH. destruct IH as (I1 & I2 & I3 & I4).
      cbn [ran pulses stabilized length].
      set (r := loadAllProducts_loop rem (S i) page jsonPath sourceUrl saveInterval _ fs') in *.
      split; [lia|]. split; [|split].
      * intros [|[|k]] Hk; [lia| |].
        -- rewrite Nat.add_1_r, Hrun. exact H0.
        -- replace (i + S (S k))%nat with (S i + S k)%nat by lia.
           apply I2. lia.
      * replace (i + S (length (pulses r)))%nat
          with (S i + length (pulses r))%nat by lia.
        destruct (stabilized r); [split; [lia|apply I3]|split; [lia|apply I3]].
      * intros [|k] Hk; [now rewrite Nat.add_0_r|].
        replace (i + S k)%nat with (S i + k)%nat by lia.
        cbn. apply I4. lia.
Qed.

End ScrollLoop.

(** C5, as stated, fails in its last part: on a page without the scroll
    container [autoScroll] falls back to scrolling the window and leaves its
    loop as soon as the height of the page stops changing.  On a page whose
    height and count never change, each of the seven iterations that run
    issues two pulses, not five. *)
Lemma C5_fewer_than_five_pulses :
  let r := loadAllProducts still_page "products.json" SRC 5 ∅ in
  pulses r = [2; 2; 2; 2; 2; 2; 2]%nat
  /\ stabilized r = true
  /\ ~ Forall (fun p => p = 5%nat) (pulses r).
Proof.
  cbv zeta.
  assert (E : pulses (loadAllProducts still_page "products.json" SRC 5 ∅)
              = [2; 2; 2; 2; 2; 2; 2]%nat) by (vm_compute; reflexivity).
  rewrite E. split; [reflexivity|]. split; [vm_compute; reflexivity|].
  intros H. apply Forall_cons in H as [H _]. discriminate H.
Qed.

(** C5, amended.  The loop of [loadAllProducts] always ends, after at most
    500 iterations: it stops at the first iteration that completes 6
    consecutive iterations whose measured count did not increase, and runs
    all 500 iterations when there is none.  Each iteration that runs issues
    exactly 5 scroll pulses when the scroll container is on the page, and
    between 1 and 5 when it is not. *)
Theorem C5_scroll_loop_is_bounded
    (page : nat -> IterationObs) (jsonPath : string) (sourceUrl : jsstring)
    (saveInterval : nat) (fs : FS) :
  let r := loadAllProducts page jsonPath sourceUrl saveInterval fs in
  let n := iterations r in
  (n <= 500)%nat
  /\ (forall i, (S i < n)%nat -> stable_at page i = false)
  /\ (if stabilized r
      then (0 < n)%nat /\ stable_at page (n - 1) = true
      else n = 500%nat /\ stable_at page 499 = false)
  /\ (forall i, (i < n)%nat ->
        exists p, pulses r !! i = Some p /\ (1 <= p <= 5)%nat
                  /\ (obs_hasContainer (page i) = true -> p = 5%nat)).
Proof.
  cbv zeta. unfold loadAllProducts, iterations.
  pose proof (loadAllProducts_loop_spec page jsonPath sourceUrl saveInterval
                iterationCap 0 {| previousCount := -1; stableIterations := 0 |} fs
                eq_refl eq_refl) as H.
  assert (H0 : (stable_run page 0 < maxStable)%nat) by (cbn; unfold maxStable; lia).
  specialize (H H0). cbv zeta in H. clear H0.
  destruct H as (H1 & H2 & H3 & H4).
  split; [exact H1|]. split; [|split].
  - intros i Hi. apply stable_at_false.
    specialize (H2 (S i)). rewrite Nat.add_0_l in H2. apply H2. lia.
  - destruct (stabilized _).
    + destruct H3 as [Hn Hs]. split; [exact Hn|].
      apply stable_at_run. rewrite Nat.add_0_l in Hs.
      rewrite Nat.sub_1_r, Nat.succ_pred by lia. exact Hs.
    + destruct H3 as [Hn Hs]. split; [exact Hn|].
      apply stable_at_false. rewrite Nat.add_0_l, Hn in Hs. exact Hs.
  - intros i Hi. specialize (H4 i Hi). rewrite Nat.add_0_l in H4.
    eexists. split; [exact H4|]. apply autoScroll_pulses.
Qed.

(** * Further properties of the code *)

(** ** Text and price helpers *)

(** [sanitizeText] is idempotent: sanitising a sanitised text changes
    nothing. *)
Theorem sanitizeText_idempotent (value : jsstring) :
  sanitizeText (sanitizeText value) = sanitizeText value.
Proof. apply sanitizeText_fixes_normalized, sanitizeText_normalized. Qed.

Lemma sanitizeText_nil_iff (value : jsstring) :
  sanitizeText value = [] <-> Forall (fun c => is_ws c = true) value.
Proof.
  assert (Hall : forall s : jsstring,
            List.filter (fun c => negb (is_ws c)) s = []
            <-> Forall (fun c => is_ws c = true) s).
  { induction s as [|c r IH]; cbn [List.filter].
    - split; [constructor|reflexivity].
    - destruct (is_ws c) eqn:Hc; cbn [negb].
      + rewrite IH. split; [now constructor|]. intros H. now inversion H.
      + split; [discriminate|]. intros H. inversion H. congruence. }
  rewrite <- Hall, <- (sanitizeText_keeps_text value). split.
  - now intros ->.
  - intros H. pose proof (sanitizeText_normalized value) as Hn.
    destruct (sanitizeText value) as [|c r]; [reflexivity|].
    unfold ws_normalized in Hn. apply andb_true_iff in Hn as [Hh _].
    cbn in Hh, H. destruct (is_ws c); [discriminate Hh|discriminate H].
Qed.

(** [sanitizeText] returns the empty string exactly on the texts that hold
    nothing but whitespace (the empty text included). *)
Theorem sanitizeText_empty_iff (value : jsstring) :
  sanitizeText value = [] <-> Forall (fun c => is_ws c = true) value.
Proof. apply sanitizeText_nil_iff. Qed.

(** [sanitizeText] only moves whitespace: the other units of the text come
    out unchanged and in their order. *)
Theorem sanitizeText_only_touches_whitespace (value : jsstring) :
  List.filter (fun c => negb (is_ws c)) (sanitizeText value)
  = List.filter (fun c => negb (is_ws c)) value.
Proof. apply sanitizeText_keeps_text. Qed.

Lemma price_class_not_ws (c : N) :
  is_digit c || (c =? DOT)%N = true -> is_ws c = false.
Proof.
  unfold is_digit, DOT, is_ws. intros H.
  repeat match goal with
         | H : context [(?a <=? ?b)%N] |- _ => destruct (N.leb_spec a b); cbn in H
         | H : context [(?a =? ?b)%N] |- _ => destruct (N.eqb_spec a b); cbn in H
         end; try discriminate;
  repeat match goal with
         | |- context [(?a <=? ?b)%N] => destruct (N.leb_spec a b); try lia
         | |- context [(?a =? ?b)%N] => destruct (N.eqb_spec a b); try lia
         end; reflexivity.
Qed.

Lemma filter_through (P Q : N -> bool) (l : jsstring) :
  (forall c, P c = true -> Q c = true) ->
  List.filter P (List.filter Q l) = List.filter P l.
Proof.
  intros HPQ. induction l as [|c r IH]; [reflexivity|]. cbn [List.filter].
  destruct (Q c) eqn:HQ; cbn [List.filter].
  - now rewrite IH.
  - destruct (P c) eqn:HP; [|exact IH]. rewrite (HPQ c HP) in HQ. discriminate.
Qed.

Lemma cleaned_sanitizeText (text : jsstring) :
  cleaned (sanitizeText text) = cleaned text.
Proof.
  rewrite !cleaned_filter.
  rewrite <- (filter_through _ (fun c => negb (is_ws c)) (sanitizeText text)),
          <- (filter_through _ (fun c => negb (is_ws c)) text).
  - now rewrite sanitizeText_keeps_text.
  - intros c Hc. now rewrite (price_class_not_ws c Hc).
  - intros c Hc. now rewrite (price_class_not_ws c Hc).
Qed.

Lemma parsePrice_cleaned (text : jsstring) :
  parsePrice text = finite_or_null (parseFloat (cleaned text)).
Proof. now destruct text. Qed.

Lemma parsePrice_of_sanitized (text : jsstring) :
  parsePrice (sanitizeText text) = parsePrice text.
Proof. now rewrite !parsePrice_cleaned, cleaned_sanitizeText. Qed.

(** The price parsed from a sanitised price text is the price parsed from
    the raw text: whitespace never takes part in the parse. *)
Theorem parsePrice_sanitizeText (text : jsstring) :
  parsePrice (sanitizeText text) = parsePrice text.
Proof. apply parsePrice_of_sanitized. Qed.

(** Only the digits and the dots of a text decide its price: two texts with
    the same digits and dots in the same order (whatever currency signs,
    letters, signs, commas or blanks stand between them) parse to the same
    result. *)
Theorem parsePrice_only_digits_and_dots (t1 t2 : jsstring) :
  List.filter (fun c => is_digit c || (c =? DOT)%N) t1
  = List.filter (fun c => is_digit c || (c =? DOT)%N) t2 ->
  parsePrice t1 = parsePrice t2.
Proof. intros H. now rewrite !parsePrice_cleaned, !cleaned_filter, H. Qed.

Lemma parsePrice_only_digits_and_dots_witness :
  List.filter (fun c => is_digit c || (c =? DOT)%N) (PESO :: u16 "1,250.50")
  = List.filter (fun c => is_digit c || (c =? DOT)%N) (u16 "-1250.50 PHP")
  /\ parsePrice (PESO :: u16 "1,250.50") = parsePrice (u16 "-1250.50 PHP").
Proof.
  assert (H : List.filter (fun c => is_digit c || (c =? DOT)%N) (PESO :: u16 "1,250.50")
              = List.filter (fun c => is_digit c || (c =? DOT)%N) (u16 "-1250.50 PHP"))
    by reflexivity.
  split; [exact H|]. exact (parsePrice_only_digits_and_dots _ _ H).
Defined.

Lemma take_digits_app (ds rest : jsstring) :
  Forall (fun c => is_digit c = true) ds -> head_not_digit rest = true ->
  take_digits (ds ++ rest) = (ds, rest).
Proof.
  intros Hds Hrest. induction Hds as [|c r Hc _ IH]; cbn [app].
  - destruct rest as [|c r]; [reflexivity|]. cbn in *.
    apply negb_true_iff in Hrest. now rewrite Hrest.
  - cbn [take_digits]. now rewrite Hc, IH.
Qed.

Lemma dot_not_digit : is_digit DOT = false.
Proof. reflexivity. Qed.

Lemma parseFloat_literal (ip fp rest : jsstring) :
  Forall (fun c => is_digit c = true) ip ->
  Forall (fun c => is_digit c = true) fp ->
  head_not_digit rest = true ->
  parseFloat (ip ++ DOT :: fp ++ rest)
  = match ip, fp with
    | [], [] => NaN
    | _, _ => of_decimal ip fp
    end.
Proof.
  intros Hip Hfp Hrest. unfold parseFloat.
  rewrite (take_digits_app ip (DOT :: fp ++ rest) Hip eq_refl).
  now rewrite N.eqb_refl, (take_digits_app fp rest Hfp Hrest).
Qed.

Lemma cleaned_literal (ip fp : jsstring) :
  Forall (fun c => is_digit c = true) ip ->
  Forall (fun c => is_digit c = true) fp ->
  cleaned (ip ++ DOT :: fp) = ip ++ DOT :: fp.
Proof.
  intros Hip Hfp. rewrite cleaned_filter.
  apply forallb_filter_id. rewrite forallb_app. cbn [forallb].
  apply andb_true_iff. split; [|apply andb_true_iff; split; [reflexivity|]].
  - apply forallb_forall. intros c Hc. rewrite Forall_forall in Hip.
    rewrite (Hip c); [reflexivity|]. now apply list_elem_of_In.
  - apply forallb_forall. intros c Hc. rewrite Forall_forall in Hfp.
    rewrite (Hfp c); [reflexivity|]. now apply list_elem_of_In.
Qed.

(** [parsePrice] reads the first decimal literal of the cleaned text and
    nothing after it: with integer digits [ip], a dot, fraction digits [fp]
    and then anything that does not start with a digit (a second dot and
    more digits, say), the result is the one for the literal [ip.fp]
    alone. *)
Theorem parsePrice_first_literal (text ip fp rest : jsstring) :
  cleaned text = ip ++ DOT :: fp ++ rest ->
  Forall (fun c => is_digit c = true) ip ->
  Forall (fun c => is_digit c = true) fp ->
  head_not_digit rest = true ->
  parsePrice text = parsePrice (ip ++ DOT :: fp).
Proof.
  intros Hc Hip Hfp Hrest.
  rewrite !parsePrice_cleaned, Hc, (cleaned_literal ip fp Hip Hfp).
  rewrite (parseFloat_literal ip fp rest Hip Hfp Hrest).
  pose proof (parseFloat_literal ip fp [] Hip Hfp eq_refl) as E.
  rewrite app_nil_r in E. now rewrite E.
Qed.

Lemma parsePrice_first_literal_witness :
  let text := PESO :: u16 "1.250,50.75" in
  (cleaned text = u16 "1" ++ DOT :: u16 "25050" ++ u16 ".75"
   /\ Forall (fun c => is_digit c = true) (u16 "1")
   /\ Forall (fun c => is_digit c = true) (u16 "25050")
   /\ head_not_digit (u16 ".75") = true)
  /\ parsePrice text = parsePrice (u16 "1.25050").
Proof.
  cbv zeta.
  assert (H1 : cleaned (PESO :: u16 "1.250,50.75")
               = u16 "1" ++ DOT :: u16 "25050" ++ u16 ".75") by reflexivity.
  assert (H2 : Forall (fun c => is_digit c = true) (u16 "1"))
    by (repeat constructor).
  assert (H3 : Forall (fun c => is_digit c = true) (u16 "25050"))
    by (repeat constructor).
  assert (H5 : head_not_digit (u16 ".75") = true) by reflexivity.
  split; [auto|].
  exact (parsePrice_first_literal _ _ _ _ H1 H2 H3 H5).
Defined.

Lemma max_exact_integer_below_overflow : max_exact_integer < overflow_bound.
Proof. vm_compute. reflexivity. Qed.

(** A text whose digits form a whole number (no dot among its digits): when
    the number is at most 2^53, a range in which every whole number is a
    double, the result is exactly that number; when it reaches the
    overflow bound of doubles, the result is [null]. *)
Theorem parsePrice_whole_number (text : jsstring) :
  Forall (fun c => is_digit c = true) (cleaned text) ->
  cleaned text <> [] ->
  (digits_value (cleaned text) <= max_exact_integer ->
   parsePrice text = Some (digits_value (cleaned text) # 1))
  /\ (overflow_bound <= digits_value (cleaned text) -> parsePrice text = None).
Proof.
  intros Hds Hne.
  assert (E : parsePrice text
              = if overflow_bound <=? digits_value (cleaned text) then None
                else Some (digits_value (cleaned text) # 1)).
  { rewrite parsePrice_cleaned. unfold parseFloat.
    rewrite <- (app_nil_r (cleaned text)) at 1.
    rewrite (take_digits_app (cleaned text) [] Hds eq_refl).
    destruct (cleaned text) as [|c r] eqn:Ec; [contradiction|].
    unfold of_decimal. rewrite app_nil_r. cbn [length Z.of_nat].
    change (10 ^ 0) with 1. rewrite Z.mul_1_r.
    destruct (_ <=? _); cbn [finite_or_null]; [reflexivity|].
    f_equal. apply Qcanon.Qred_identity. cbn [Qnum Qden]. apply Z.gcd_1_r. }
  pose proof max_exact_integer_below_overflow as Hlt.
  rewrite E. split; intros H.
  - destruct (_ <=? _) eqn:Hov; [|reflexivity]. apply Z.leb_le in Hov. lia.
  - apply Z.leb_le in H. now rewrite H.
Qed.

Lemma parsePrice_whole_number_witness :
  let text := u16 "PHP 1,299 only" in
  (Forall (fun c => is_digit c = true) (cleaned text) /\ cleaned text <> []
   /\ digits_value (cleaned text) <= max_exact_integer)
  /\ parsePrice text = Some (1299 # 1).
Proof.
  cbv zeta.
  assert (H1 : Forall (fun c => is_digit c = true) (cleaned (u16 "PHP 1,299 only")))
    by (repeat constructor).
  assert (H2 : cleaned (u16 "PHP 1,299 only") <> []) by discriminate.
  assert (H3 : digits_value (cleaned (u16 "PHP 1,299 only")) <= max_exact_integer)
    by (vm_compute; discriminate).
  split; [auto|].
  exact (proj1 (parsePrice_whole_number _ H1 H2) H3).
Defined.

(** ** The output file under sequences of writes *)

Lemma apply_writes_cons (jsonPath : string) (fs : FS) (op : WriteOp) (ops : list WriteOp) :
  apply_writes jsonPath fs (op :: ops)
  = apply_writes jsonPath (apply_write jsonPath fs op) ops.
Proof. reflexivity. Qed.

Lemma apply_writes_lookup_other
    (jsonPath other : string) (fs : FS) (ops : list WriteOp) :
  other <> jsonPath ->
  apply_writes jsonPath fs ops !! other = fs !! other.
Proof.
  intros Hne. revert fs. induction ops as [|op ops IH]; intros fs; [reflexivity|].
  rewrite apply_writes_cons, IH. destruct op; cbn; now apply lookup_insert_ne.
Qed.

(** The writes of the scraper touch the output file only: every other path
    of the file system reads as before, whatever the sequence of writes. *)
Theorem writes_touch_only_the_output_file
    (jsonPath other : string) (fs : FS) (ops : list WriteOp) :
  other <> jsonPath ->
  apply_writes jsonPath fs ops !! other = fs !! other.
Proof. apply apply_writes_lookup_other. Qed.

Lemma writes_touch_only_the_output_file_witness :
  let fs : FS := {[ "notes.txt" := Unparseable (u16 "keep me") ]} in
  "notes.txt" <> "products.json"
  /\ apply_writes "products.json" fs
       [Incremental [card "A" "/a.html"] SRC (u16 "t1");
        Final [card "B" "/b.html"] SRC (u16 "t2")] !! "notes.txt"
     = Some (Unparseable (u16 "keep me")).
Proof.
  cbv zeta.
  assert (H : "notes.txt" <> "products.json") by discriminate.
  split; [exact H|].
  rewrite (writes_touch_only_the_output_file "products.json" "notes.txt" _ _ H).
  reflexivity.
Defined.

(** After either kind of write, [metadata.totalProducts] is the number of
    products in the file, and it is the number the function returns. *)
Theorem written_total_is_the_product_count
    (ps : list RawProduct) (jsonPath : string) (src now : jsstring) (fs : FS) :
  (let r := saveProductsIncremental ps jsonPath src now fs in
   (totalProducts <$> file_metadata (fst r) jsonPath) = Some (snd r)
   /\ snd r = length (file_products (fst r) jsonPath))
  /\ (let r := writeFinalOutput ps jsonPath src now fs in
      (totalProducts <$> file_metadata (fst r) jsonPath) = Some (snd r)
      /\ snd r = length (file_products (fst r) jsonPath)).
Proof.
  cbv zeta. rewrite file_metadata_save, file_metadata_final,
    file_products_save, file_products_final.
  repeat split.
Qed.

Lemma apply_writes_incremental_prefix
    (jsonPath : string) (fs : FS) (ops : list WriteOp) :
  Forall (fun op => is_incremental op = true) ops ->
  file_products fs jsonPath
    `prefix_of` file_products (apply_writes jsonPath fs ops) jsonPath.
Proof.
  intros Hops. revert fs.
  induction Hops as [|op ops Hop _ IH]; intros fs; [reflexivity|].
  rewrite apply_writes_cons. etransitivity; [|apply IH].
  destruct op; [|discriminate]. cbn [apply_write].
  apply save_keeps_persisted_records.
Qed.

(** Intermediate saves only append: over any sequence of them, the list the
    file held at the start is still there, at the front, in its order and
    with every record as it was. *)
Theorem incremental_saves_only_append
    (jsonPath : string) (fs : FS) (ops : list WriteOp) :
  Forall (fun op => is_incremental op = true) ops ->
  file_products fs jsonPath
    `prefix_of` file_products (apply_writes jsonPath fs ops) jsonPath.
Proof. apply apply_writes_incremental_prefix. Qed.

Lemma incremental_saves_only_append_witness :
  let ops := [Incremental [card "A" "/a.html"] SRC (u16 "t1");
              Incremental [card "A2" "/a.html"; card "B" "/b.html"] SRC (u16 "t2")] in
  let fs1 := apply_writes "products.json" ∅ [Incremental [card "Z" "/z.html"] SRC (u16 "t0")] in
  Forall (fun op => is_incremental op = true) ops
  /\ file_products fs1 "products.json"
       `prefix_of` file_products (apply_writes "products.json" fs1 ops) "products.json".
Proof.
  cbv zeta.
  assert (H : Forall (fun op => is_incremental op = true)
                [Incremental [card "A" "/a.html"] SRC (u16 "t1");
                 Incremental [card "A2" "/a.html"; card "B" "/b.html"] SRC (u16 "t2")])
    by (repeat constructor).
  split; [exact H|].
  exact (incremental_saves_only_append "products.json" _ _ H).
Defined.

(** The urls in the file after a save are the urls it held before together
    with the urls of the cards of the batch that have a name and a url:
    no such card is lost, and no other url appears. *)
Theorem urls_after_save
    (ps : list RawProduct) (jsonPath : string) (src now : jsstring) (fs : FS)
    (u : option jsstring) :
  u ∈ url <$> file_products (fst (saveProductsIncremental ps jsonPath src now fs)) jsonPath
  <-> u ∈ url <$> file_products fs jsonPath \/ u ∈ raw_url <$> kept ps.
Proof.
  rewrite file_products_save, merge_products_urls. now rewrite normalized_urls.
Qed.

(** The first record written for a url wins: after a save, the records
    whose url the file already held are exactly the old records, so a
    changed name or price shown later for a known url is never stored. *)
Theorem known_urls_keep_their_first_record
    (ps : list RawProduct) (jsonPath : string) (src now : jsstring) (fs : FS) :
  filter (fun r => url r ∈ url <$> file_products fs jsonPath)
         (file_products (fst (saveProductsIncremental ps jsonPath src now fs)) jsonPath)
  = file_products fs jsonPath.
Proof.
  rewrite file_products_save. unfold merge_products. rewrite filter_app.
  rewrite filter_all.
  - rewrite filter_none; [apply app_nil_r|].
    intros r Hr Hin. apply list_elem_of_filter in Hr as [Hr _].
    apply Hr. now rewrite elem_of_url_set.
  - intros r Hr. now apply list_elem_of_fmap_2.
Qed.

(** Starting from a missing file, intermediate saves whose batches never
    repeat a url among the cards they keep leave a file with pairwise
    distinct urls. *)
Theorem distinct_urls_without_repeats_in_a_batch
    (jsonPath : string) (fs : FS)
    (batches : list (list RawProduct * jsstring * jsstring)) :
  fs !! jsonPath = None ->
  Forall (fun b => NoDup (raw_url <$> kept b.1.1)) batches ->
  NoDup (url <$> file_products
           (apply_writes jsonPath fs
              ((fun b => Incremental b.1.1 b.1.2 b.2) <$> batches)) jsonPath).
Proof.
  intros Habs Hb. apply incremental_saves_NoDup; [|exact Hb].
  rewrite (file_products_absent _ _ Habs). constructor.
Qed.

Lemma distinct_urls_without_repeats_in_a_batch_witness :
  let batches := [([card "A" "/a.html"], SRC, u16 "t1");
                  ([card "A" "/a.html"; card "B" "/b.html"], SRC, u16 "t2")] in
  ((∅ : FS) !! "products.json" = None
   /\ Forall (fun b => NoDup (raw_url <$> kept b.1.1)) batches)
  /\ NoDup (url <$> file_products
              (apply_writes "products.json" ∅
                 ((fun b => Incremental b.1.1 b.1.2 b.2) <$> batches)) "products.json").
Proof.
  cbv zeta.
  assert (H0 : (∅ : FS) !! "products.json" = None) by reflexivity.
  assert (H1 : Forall (fun b : list RawProduct * jsstring * jsstring =>
                         NoDup (raw_url <$> kept b.1.1))
                 [([card "A" "/a.html"], SRC, u16 "t1");
                  ([card "A" "/a.html"; card "B" "/b.html"], SRC, u16 "t2")]).
  { repeat constructor; apply (bool_decide_unpack _); vm_compute; exact I. }
  split; [auto|].
  exact (distinct_urls_without_repeats_in_a_batch "products.json" ∅ _ H0 H1).
Defined.

(** Every record of the file, after any sequence of writes that starts
    with the file missing, has a non-empty url. *)
Theorem persisted_urls_are_not_empty
    (jsonPath : string) (fs : FS) (ops : list WriteOp) (r : Product) :
  fs !! jsonPath = None ->
  r ∈ file_products (apply_writes jsonPath fs ops) jsonPath ->
  exists u, url r = Some u /\ u <> [].
Proof.
  intros Habs Hr.
  assert (Hall : Forall from_card (file_products (apply_writes jsonPath fs ops) jsonPath)).
  { apply apply_writes_from_card. rewrite (file_products_absent _ _ Habs). constructor. }
  rewrite Forall_forall in Hall. destruct (Hall r Hr) as (c & src & ts & Hc & ->).
  unfold has_name_and_url in Hc. apply andb_true_iff in Hc as [_ Hu].
  cbn [normalizeProduct url]. destruct (raw_url c) as [[|x u]|]; try discriminate.
  eexists. split; [reflexivity|discriminate].
Qed.

Lemma persisted_urls_are_not_empty_witness :
  let ops := [Incremental [card "A" "/a.html"; card "B" EmptyString] SRC (u16 "t1")] in
  ((∅ : FS) !! "products.json" = None
   /\ record "A" "/a.html" "t1" ∈ file_products (apply_writes "products.json" ∅ ops) "products.json")
  /\ exists u, url (record "A" "/a.html" "t1") = Some u /\ u <> [].
Proof.
  cbv zeta.
  assert (H0 : (∅ : FS) !! "products.json" = None) by reflexivity.
  assert (H1 : record "A" "/a.html" "t1"
               ∈ file_products (apply_writes "products.json" ∅
                   [Incremental [card "A" "/a.html"; card "B" EmptyString] SRC (u16 "t1")])
                   "products.json").
  { vm_compute. left. }
  split; [auto|].
  exact (persisted_urls_are_not_empty "products.json" ∅ _ _ H0 H1).
Defined.

(** In every record of the file (same starting point), [price] is what
    [parsePrice] gives on the stored [priceText]: the number and the text
    never disagree. *)
Theorem persisted_price_matches_priceText
    (jsonPath : string) (fs : FS) (ops : list WriteOp) (r : Product) :
  fs !! jsonPath = None ->
  r ∈ file_products (apply_writes jsonPath fs ops) jsonPath ->
  price r = parsePrice (priceText r).
Proof.
  intros Habs Hr.
  assert (Hall : Forall from_card (file_products (apply_writes jsonPath fs ops) jsonPath)).
  { apply apply_writes_from_card. rewrite (file_products_absent _ _ Habs). constructor. }
  rewrite Forall_forall in Hall. destruct (Hall r Hr) as (c & src & ts & Hc & ->).
  cbn [normalizeProduct price priceText]. symmetry. apply parsePrice_of_sanitized.
Qed.

Lemma persisted_price_matches_priceText_witness :
  let ops := [Incremental [card "A" "/a.html"] SRC (u16 "t1")] in
  ((∅ : FS) !! "products.json" = None
   /\ record "A" "/a.html" "t1" ∈ file_products (apply_writes "products.json" ∅ ops) "products.json")
  /\ price (record "A" "/a.html" "t1") = parsePrice (priceText (record "A" "/a.html" "t1")).
Proof.
  cbv zeta.
  assert (H0 : (∅ : FS) !! "products.json" = None) by reflexivity.
  assert (H1 : record "A" "/a.html" "t1"
               ∈ file_products (apply_writes "products.json" ∅
                   [Incremental [card "A" "/a.html"] SRC (u16 "t1")]) "products.json").
  { vm_compute. left. }
  split; [auto|].
  exact (persisted_price_matches_priceText "products.json" ∅ _ _ H0 H1).
Defined.

(** ** The scroll loop and the file *)

Section LoopWrites.

Variables (page : nat -> IterationObs) (jsonPath : string) (sourceUrl : jsstring)
  (saveInterval : nat).

Lemma apply_writes_app (fs : FS) (ops1 ops2 : list WriteOp) :
  apply_writes jsonPath fs (ops1 ++ ops2)
  = apply_writes jsonPath (apply_writes jsonPath fs ops1) ops2.
Proof. unfold apply_writes. apply fold_left_app. Qed.

(** What the loop does to the file system is a sequence of intermediate
    saves. *)
Lemma loop_as_writes (remaining i : nat) (st : LoopState) (fs : FS) :
  exists ops,
    Forall (fun op => is_incremental op = true) ops
    /\ final_fs (loadAllProducts_loop remaining i page jsonPath sourceUrl
                   saveInterval st fs)
       = apply_writes jsonPath fs ops.
Proof.
  revert i st fs. induction remaining as [|rem IH]; intros i st fs.
  - exists []. split; [constructor|reflexivity].
  - cbn [loadAllProducts_loop].
    set (cur := Z.of_nat (obs_currentCount (page i))).
    match goal with
    | |- context [if ?c then fst ?a else fs] => set (fs' := if c then fst a else fs)
    end.
    assert (Hfs' : exists ops0, Forall (fun op => is_incremental op = true) ops0
                     /\ fs' = apply_writes jsonPath fs ops0).
    { subst fs'. destruct (_ && _).
      - exists [Incremental (obs_cards (page i)) sourceUrl (obs_now (page i))].
        split; [repeat constructor|reflexivity].
      - exists []. split; [constructor|reflexivity]. }
    destruct Hfs' as (ops0 & Hinc0 & Hfs').
    assert (Hrec : forall st', exists ops,
              Forall (fun op => is_incremental op = true) ops
              /\ final_fs (ran (autoScroll (obs_hasContainer (page i)) 5
                                  (obs_heights (page i)))
                             (loadAllProducts_loop rem (S i) page jsonPath sourceUrl
                                saveInterval st' fs'))
                 = apply_writes jsonPath fs ops).
    { intros st'. destruct (IH (S i) st' fs') as (ops & Hinc & E).
      exists (ops0 ++ ops). split; [now apply Forall_app|].
      cbn [ran final_fs]. now rewrite E, Hfs', apply_writes_app. }
    destruct (cur <=? previousCount st); [|apply Hrec].
    destruct (maxStable <=? S (stableIterations st))%nat; [|apply Hrec].
    exists ops0. split; [exact Hinc0|exact Hfs'].
Qed.

Lemma loop_without_path (remaining i : nat) (st : LoopState) (fs : FS) :
  path_truthy jsonPath = false ->
  final_fs (loadAllProducts_loop remaining i page jsonPath sourceUrl
              saveInterval st fs) = fs.
Proof.
  intros Hp. revert i st fs. induction remaining as [|rem IH]; intros i st fs;
    [reflexivity|].
  cbn [loadAllProducts_loop]. rewrite Hp. cbn [andb].
  destruct (_ <=? previousCount st); [|cbn [ran final_fs]; apply IH].
  destruct (maxStable <=? _)%nat; [reflexivity|cbn [ran final_fs]; apply IH].
Qed.

Lemma loop_first_iteration_saves (rem i : nat) (st : LoopState) (fs : FS) :
  path_truthy jsonPath = true ->
  previousCount st < Z.of_nat (obs_currentCount (page i)) ->
  exists ops,
    Forall (fun op => is_incremental op = true) ops
    /\ final_fs (loadAllProducts_loop (S rem) i page jsonPath sourceUrl
                   saveInterval st fs)
       = apply_writes jsonPath
           (fst (saveProductsIncremental (obs_cards (page i)) jsonPath sourceUrl
                   (obs_now (page i)) fs)) ops.
Proof.
  intros Hp Hlt. cbn [loadAllProducts_loop]. rewrite Hp. cbn [andb].
  apply Z.ltb_lt in Hlt. rewrite Hlt, orb_true_r.
  apply Z.ltb_lt, Z.leb_gt in Hlt. rewrite Hlt.
  cbn [ran final_fs]. apply loop_as_writes.
Qed.

Lemma saved_document_after_save ps src now (fs : FS) :
  saved_document (fst (saveProductsIncremental ps jsonPath src now fs)) jsonPath.
Proof.
  unfold saved_document, saveProductsIncremental. cbn [fst].
  eexists _, _. rewrite lookup_insert_eq. repeat split.
Qed.

Lemma saved_document_kept (fs : FS) (ops : list WriteOp) :
  Forall (fun op => is_incremental op = true) ops ->
  saved_document fs jsonPath ->
  saved_document (apply_writes jsonPath fs ops) jsonPath.
Proof.
  intros Hops. revert fs. induction Hops as [|op ops Hop _ IH]; intros fs Hfs;
    [exact Hfs|].
  rewrite apply_writes_cons. apply IH.
  destruct op; [|discriminate]. cbn [apply_write]. apply saved_document_after_save.
Qed.

End LoopWrites.

(** A run that resumes on an existing file keeps it during the scroll loop:
    the products the file held when the loop started are still at the front
    of its list when the loop ends, unchanged. *)
Theorem loop_keeps_persisted_records
    (page : nat -> IterationObs) (jsonPath : string) (sourceUrl : jsstring)
    (saveInterval : nat) (fs : FS) :
  file_products fs jsonPath
    `prefix_of` file_products
       (final_fs (loadAllProducts page jsonPath sourceUrl saveInterval fs)) jsonPath.
Proof.
  unfold loadAllProducts.
  destruct (loop_as_writes page jsonPath sourceUrl saveInterval iterationCap 0
              {| previousCount := -1; stableIterations := 0 |} fs) as (ops & Hinc & ->).
  now apply apply_writes_incremental_prefix.
Qed.

(** The scroll loop writes to the output file only. *)
Theorem loop_touches_only_the_output_file
    (page : nat -> IterationObs) (jsonPath other : string) (sourceUrl : jsstring)
    (saveInterval : nat) (fs : FS) :
  other <> jsonPath ->
  final_fs (loadAllProducts page jsonPath sourceUrl saveInterval fs) !! other
  = fs !! other.
Proof.
  intros Hne. unfold loadAllProducts.
  destruct (loop_as_writes page jsonPath sourceUrl saveInterval iterationCap 0
              {| previousCount := -1; stableIterations := 0 |} fs) as (ops & Hinc & ->).
  now apply apply_writes_lookup_other.
Qed.

Lemma loop_touches_only_the_output_file_witness :
  let fs : FS := {[ "notes.txt" := Unparseable (u16 "keep me") ]} in
  "notes.txt" <> "products.json"
  /\ final_fs (loadAllProducts still_page "products.json" SRC 5 fs) !! "notes.txt"
     = fs !! "notes.txt".
Proof.
  cbv zeta.
  assert (H : "notes.txt" <> "products.json") by discriminate.
  split; [exact H|].
  exact (loop_touches_only_the_output_file still_page "products.json" "notes.txt"
           SRC 5 _ H).
Defined.

(** With an empty output path the loop saves nothing: the file system comes
    out as it went in. *)
Theorem loop_without_output_path_writes_nothing
    (page : nat -> IterationObs) (sourceUrl : jsstring) (saveInterval : nat) (fs : FS) :
  final_fs (loadAllProducts page EmptyString sourceUrl saveInterval fs) = fs.
Proof. unfold loadAllProducts. now apply loop_without_path. Qed.

(** With a non-empty output path the loop always leaves an output file,
    even on a page without any product: the first iteration saves, and
    every save writes a document with a products list, the matching total
    and no [completed] flag. *)
Theorem loop_always_creates_the_output_file
    (page : nat -> IterationObs) (jsonPath : string) (sourceUrl : jsstring)
    (saveInterval : nat) (fs : FS) :
  jsonPath <> EmptyString ->
  saved_document (final_fs (loadAllProducts page jsonPath sourceUrl saveInterval fs))
    jsonPath.
Proof.
  intros Hne.
  assert (Hp : path_truthy jsonPath = true) by (now destruct jsonPath).
  unfold loadAllProducts.
  destruct (loop_first_iteration_saves page jsonPath sourceUrl saveInterval 499 0
              {| previousCount := -1; stableIterations := 0 |} fs Hp)
    as (ops & Hinc & E).
  { cbn [previousCount]. lia. }
  unfold iterationCap. rewrite E.
  apply saved_document_kept; [exact Hinc|apply saved_document_after_save].
Qed.

Lemma loop_always_creates_the_output_file_witness :
  "products.json" <> EmptyString
  /\ saved_document (final_fs (loadAllProducts still_page "products.json" SRC 0 ∅))
       "products.json".
Proof.
  assert (H : "products.json" <> EmptyString) by discriminate.
  split; [exact H|].
  exact (loop_always_creates_the_output_file still_page "products.json" SRC 0 ∅ H).
Defined.

(** ** Work done by the scroll driver *)

Lemma stable_run_below (page : nat -> IterationObs) (m : nat) :
  (stable_run page (S m) <= m)%nat.
Proof.
  induction m as [|m IH].
  - cbn [stable_run]. unfold not_increased, count_before.
    destruct (_ <=? -1) eqn:E; [|lia]. apply Z.leb_le in E. lia.
  - change (stable_run page (S (S m)))
      with (if not_increased page (S m) then S (stable_run page (S m)) else O).
    destruct (not_increased page (S m)); lia.
Qed.

Lemma sum_between (a b : nat) (l : list nat) :
  Forall (fun p => (a <= p <= b)%nat) l ->
  (a * length l <= foldr Nat.add 0 l <= b * length l)%nat.
Proof.
  induction 1 as [|p l Hp _ IH]; cbn [foldr length]; lia.
Qed.

(** The loop never stops before its seventh iteration (the first one always
    counts as an increase, and six stable ones must follow) nor runs more
    than 500; the scroll pulses it issues in total lie between the number of
    iterations and five times that number, hence never exceed 2500. *)
Theorem scroll_loop_work_bounds
    (page : nat -> IterationObs) (jsonPath : string) (sourceUrl : jsstring)
    (saveInterval : nat) (fs : FS) :
  let r := loadAllProducts page jsonPath sourceUrl saveInterval fs in
  (7 <= iterations r <= 500)%nat
  /\ (iterations r <= total_pulses r <= 5 * iterations r)%nat
  /\ (total_pulses r <= 2500)%nat.
Proof.
  cbv zeta. unfold loadAllProducts, iterations, total_pulses.
  pose proof (loadAllProducts_loop_spec page jsonPath sourceUrl saveInterval
                iterationCap 0 {| previousCount := -1; stableIterations := 0 |} fs
                eq_refl eq_refl) as H.
  assert (H0 : (stable_run page 0 < maxStable)%nat) by (cbn; unfold maxStable; lia).
  specialize (H H0). cbv zeta in H. clear H0.
  destruct H as (H1 & _ & H3 & H4).
  set (r := loadAllProducts_loop _ _ _ _ _ _ _ _) in *.
  assert (Hcap : iterationCap = 500%nat) by reflexivity.
  assert (Hn : (7 <= length (pulses r))%nat).
  { destruct (stabilized r).
    - destruct H3 as [Hpos Hs]. rewrite Nat.add_0_l in Hs.
      destruct (length (pulses r)) as [|m]; [lia|].
      pose proof (stable_run_below page m). unfold maxStable in Hs. lia.
    - destruct H3 as [-> _]. rewrite Hcap. lia. }
  assert (Hall : Forall (fun p => (1 <= p <= 5)%nat) (pulses r)).
  { apply Forall_lookup. intros k p Hk.
    assert (Hlt : (k < length (pulses r))%nat) by (apply lookup_lt_is_Some; eauto).
    rewrite (H4 k Hlt) in Hk. injection Hk as <-. apply autoScroll_pulses. }
  apply sum_between in Hall. rewrite Hcap in H1. lia.
Qed.

Lemma autoScroll_window_spec (n j : nat) (heights : nat -> Z) :
  let p := autoScroll_window n j heights (height_before heights j) in
  (p <= n)%nat
  /\ (forall k, (S k < p)%nat -> heights (j + k)%nat <> height_before heights (j + k))
  /\ ((p < n)%nat ->
      (0 < p)%nat /\ heights (j + p - 1)%nat = height_before heights (j + p - 1)).
Proof.
  cbv zeta. revert j. induction n as [|n IH]; intros j; cbn [autoScroll_window].
  - repeat split; lia.
  - destruct (heights j =? height_before heights j) eqn:E.
    + apply Z.eqb_eq in E. repeat split; try lia.
      now replace (j + 1 - 1)%nat with j by lia.
    + apply Z.eqb_neq in E.
      pose proof (IH (S j)) as IH'.
      change (height_before heights (S j)) with (heights j) in IH'.
      destruct IH' as (I1 & I2 & I3).
      set (p := autoScroll_window n (S j) heights (heights j)) in *.
      split; [lia|]. split.
      * intros [|k] Hk; [now rewrite Nat.add_0_r|].
        replace (j + S k)%nat with (S j + k)%nat by lia. apply I2. lia.
      * intros Hp. assert (Hp' : (p < n)%nat) by lia.
        destruct (I3 Hp') as [Hpos Heq]. split; [lia|].
        now replace (j + S p - 1)%nat with (S j + p - 1)%nat by lia.
Qed.

(** Without the scroll container, [autoScroll] scrolls the window and stops
    right after the first pulse that leaves the height of the page as it
    was (the height before the first pulse counting as 0); it never issues
    more than [maxScrolls] pulses. *)
Theorem autoScroll_fallback_stops_at_first_unchanged_height
    (maxScrolls : nat) (heights : nat -> Z) :
  let p := autoScroll false maxScrolls heights in
  (p <= maxScrolls)%nat
  /\ (forall k, (S k < p)%nat -> heights k <> height_before heights k)
  /\ ((p < maxScrolls)%nat ->
      (0 < p)%nat /\ heights (p - 1)%nat = height_before heights (p - 1)).
Proof.
  cbv zeta. unfold autoScroll.
  change 0 with (height_before heights 0).
  exact (autoScroll_window_spec maxScrolls 0 heights).
Qed.

(** ** Extraction, the complete run and the conversion *)

Lemma collapse_and_trim_sanitizeText (t : jsstring) :
  collapse_and_trim t = sanitizeText t.
Proof. now destruct t. Qed.

Lemma sanitizeText_twice (t : jsstring) :
  sanitizeText (sanitizeText t) = sanitizeText t.
Proof. apply sanitizeText_fixes_normalized, sanitizeText_normalized. Qed.

(** The text of a scraped card is already normalised in the page, so
    [normalizeProduct] stores every field of the card as [scrapeCategory]
    returned it. *)
Theorem normalizeProduct_keeps_scraped_fields
    (d : DomCard) (src ts now : jsstring) :
  let c := scrapeCard d in
  let r := normalizeProduct c src ts now in
  name r = raw_name c /\ url r = raw_url c /\ uom r = raw_uom c
  /\ priceText r = raw_priceText c
  /\ weightedPriceText r = raw_weightedPriceText c
  /\ image r = raw_image c.
Proof.
  cbv zeta. cbn [normalizeProduct scrapeCard name url uom priceText
                 weightedPriceText image raw_name raw_url raw_uom raw_priceText
                 raw_weightedPriceText raw_image].
  rewrite !collapse_and_trim_sanitizeText, !sanitizeText_twice. repeat split.
Qed.

(** A card of the page passes the [p.name && p.url] filter exactly when its
    name node exists with a text that is not blank and its anchor exists
    with a non-empty [href]; a card without anchor, without [href] or with a
    blank name is never stored. *)
Theorem scraped_card_is_kept_iff (d : DomCard) :
  has_name_and_url (scrapeCard d) = true
  <-> (exists t, dom_name d = Some t /\ ~ Forall (fun c => is_ws c = true) t)
      /\ (exists u, dom_href d = Some (Some u) /\ u <> []).
Proof.
  unfold has_name_and_url. rewrite andb_true_iff.
  cbn [scrapeCard raw_name raw_url]. rewrite collapse_and_trim_sanitizeText.
  assert (Hname : truthy (sanitizeText (getText (dom_name d))) = true
                  <-> exists t, dom_name d = Some t
                        /\ ~ Forall (fun c => is_ws c = true) t).
  { pose proof (sanitizeText_nil_iff (getText (dom_name d))) as Hnil.
    split.
    - intros Ht. destruct (dom_name d) as [t|]; cbn [getText] in *.
      + exists t. split; [reflexivity|]. intros Hall. apply Hnil in Hall.
        rewrite Hall in Ht. discriminate.
      + discriminate.
    - intros (t & E & Hnot). rewrite E in *. cbn [getText] in *.
      destruct (sanitizeText t); [|reflexivity].
      exfalso. apply Hnot. now apply Hnil. }
  assert (Hurl : truthy_opt (getHref (dom_href d)) = true
                 <-> exists u, dom_href d = Some (Some u) /\ u <> []).
  { split.
    - intros Hu. destruct (dom_href d) as [[[|x u]|]|]; try discriminate.
      eexists. split; [reflexivity|discriminate].
    - intros (u & -> & Hne). destruct u; [contradiction|reflexivity]. }
  now rewrite Hname, Hurl.
Qed.

Lemma scrape_main_file (page : nat -> IterationObs) (finalCards : list DomCard)
    (finalNow : jsstring) (out : string) (url : jsstring) (fs : FS) :
  let ps := normalized (scrapeCategory finalCards) url finalNow in
  fst (scrape_main page finalCards finalNow out url fs) !! out
  = Some (JsonFile
      {| metadata := Some {| md_sourceUrl := url; md_scrapedAt := finalNow;
                             totalProducts := length ps;
                             lastSavedAt := None; completed := Some true |};
         products := Some ps |}).
Proof.
  cbv zeta. unfold scrape_main, writeFinalOutput. cbn [fst].
  now rewrite lookup_insert_eq.
Qed.

(** A run that reaches its end leaves in the output file exactly the
    records of its final extraction, marked [completed], whatever the file
    held before and whatever the intermediate saves wrote; and it leaves
    every other file as it was. *)
Theorem completed_run_output
    (page : nat -> IterationObs) (finalCards : list DomCard)
    (finalNow : jsstring) (out : string) (url : jsstring) (fs : FS) :
  let ps := normalized (scrapeCategory finalCards) url finalNow in
  let r := scrape_main page finalCards finalNow out url fs in
  fst r !! out
  = Some (JsonFile
      {| metadata := Some {| md_sourceUrl := url; md_scrapedAt := finalNow;
                             totalProducts := length ps;
                             lastSavedAt := None; completed := Some true |};
         products := Some ps |})
  /\ snd r = length (kept (scrapeCategory finalCards))
  /\ forall other, other <> out -> fst r !! other = fs !! other.
Proof.
  cbv zeta. split; [apply scrape_main_file|]. split.
  - unfold scrape_main, writeFinalOutput, normalized, kept. cbn [snd].
    now rewrite length_fmap.
  - intros other Hne. unfold scrape_main, writeFinalOutput. cbn [fst].
    rewrite lookup_insert_ne by congruence.
    unfold loadAllProducts.
    destruct (loop_as_writes page out url 5 iterationCap 0
                {| previousCount := -1; stableIterations := 0 |} fs)
      as (ops & _ & ->).
    now apply apply_writes_lookup_other.
Qed.

Lemma csv_row_of_normalized (d : Document) (c : RawProduct) (src ts : jsstring) :
  (match metadata d with Some m => md_sourceUrl m | None => [] end) = src ->
  csv_row d (normalizeProduct c src ts ts)
  = row_of_record (normalizeProduct c src ts ts).
Proof.
  intros Hsrc. unfold csv_row, row_of_record.
  cbn [normalizeProduct name url uom price priceText weightedPriceText image
       scrapedAt sourceUrl].
  rewrite !sanitizeText_twice, Hsrc.
  assert (Hts : (if truthy ts then ts else ts) = ts) by now destruct (truthy ts).
  rewrite Hts. f_equal. unfold or_else. now destruct (truthy src).
Qed.

(** Scraping to the end and then converting: the conversion stops at its
    no-products check when the final extraction kept no card, and otherwise
    writes one CSV row per stored record, in order, each carrying the fields
    of the record unchanged. *)
Theorem scrape_then_convert
    (page : nat -> IterationObs) (finalCards : list DomCard)
    (finalNow : jsstring) (out csvPath : string) (url : jsstring) (fs : FS) :
  let fs1 := fst (scrape_main page finalCards finalNow out url fs) in
  let ps := normalized (scrapeCategory finalCards) url finalNow in
  convertJsonToCsv out csvPath fs1
  = match ps with
    | [] => (ExitNoProducts, fs1)
    | _ => (Converted (length ps),
            <[csvPath := CsvFile csv_columns (row_of_record <$> ps)]> fs1)
    end.
Proof.
  cbv zeta. unfold convertJsonToCsv. rewrite scrape_main_file.
  cbn [products metadata].
  set (ps := normalized (scrapeCategory finalCards) url finalNow).
  set (doc := {| metadata := _; products := Some ps |}).
  assert (Hrows : csv_row doc <$> ps = row_of_record <$> ps).
  { apply list_fmap_ext. intros i r Hr.
    apply list_elem_of_lookup_2 in Hr. unfold ps, normalized in Hr.
    apply list_elem_of_fmap in Hr as (c & Hc & _). rewrite Hc.
    now apply csv_row_of_normalized. }
  destruct ps as [|r rs] eqn:E; [reflexivity|].
  cbn [length Nat.eqb]. rewrite Hrows, length_fmap. reflexivity.
Qed.

(** ** The conversion as a process *)

Lemma convertJsonToCsv_lookup_other (jsonPath csvPath other : string) (fs : FS) :
  other <> csvPath ->
  snd (convertJsonToCsv jsonPath csvPath fs) !! other = fs !! other.
Proof.
  intros Hne. unfold convertJsonToCsv.
  destruct (fs !! jsonPath) as [[raw|d|h rows]|]; try reflexivity.
  destruct (length _ =? 0)%nat; [reflexivity|].
  cbn [snd]. now apply lookup_insert_ne.
Qed.

(** The conversion never writes to a path other than the CSV path, whatever
    its outcome; in particular the JSON input stays as it is when the two
    paths differ. *)
Theorem conversion_writes_only_the_csv_path
    (jsonPath csvPath other : string) (fs : FS) :
  other <> csvPath ->
  snd (convertJsonToCsv jsonPath csvPath fs) !! other = fs !! other.
Proof. apply convertJsonToCsv_lookup_other. Qed.

Lemma conversion_writes_only_the_csv_path_witness :
  let fs := fst (writeFinalOutput [card "A" "/a.html"] "products.json" SRC (u16 "t1") ∅) in
  "products.json" <> "products.csv"
  /\ snd (convertJsonToCsv "products.json" "products.csv" fs) !! "products.json"
     = fs !! "products.json".
Proof.
  cbv zeta.
  assert (H : "products.json" <> "products.csv") by discriminate.
  split; [exact H|].
  exact (conversion_writes_only_the_csv_path "products.json" "products.csv"
           "products.json" _ H).
Defined.

(** Seen from outside, the conversion ends with status 1 exactly when the
    input is not a JSON document with at least one product (missing file,
    text that does not parse, no products); it then leaves the file system
    as it was.  In every other case it ends normally. *)
Theorem conversion_exit_status (jsonPath csvPath : string) (fs : FS) :
  let r := convertJsonToCsv jsonPath csvPath fs in
  (exit_status (fst r) = Some 1
   <-> input_products fs jsonPath = None \/ input_products fs jsonPath = Some [])
  /\ (exit_status (fst r) = Some 1 \/ exit_status (fst r) = None)
  /\ (exit_status (fst r) = Some 1 -> snd r = fs).
Proof.
  cbv zeta. unfold convertJsonToCsv, input_products.
  destruct (fs !! jsonPath) as [[raw|d|h rows]|]; cbn.
  - repeat split; auto.
  - destruct (products d) as [[|p ps]|]; cbn.
    + repeat split; auto.
    + split; [split; [discriminate|intros [?|?]; discriminate]|].
      split; [auto|discriminate].
    + repeat split; auto.
  - repeat split; auto.
  - repeat split; auto.
Qed.

Lemma string_length_append (s1 s2 : string) :
  String.length (String.append s1 s2) = (String.length s1 + String.length s2)%nat.
Proof.
  induction s1 as [|c s1 IH]; [reflexivity|].
  simpl. now rewrite IH.
Qed.

Lemma json_suffix_not_bare (c : Ascii.ascii) (base : string) :
  String.eqb (String c (String.append base ".json")) ".json" = false.
Proof.
  apply String.eqb_neq. intros H.
  apply (f_equal String.length) in H. cbn [String.length] in H.
  rewrite string_length_append in H. cbn in H. lia.
Qed.

Lemma replace_json_suffix_ends (base : string) :
  replace_json_suffix (String.append base ".json") = String.append base ".csv".
Proof.
  induction base as [|c base IH]; [reflexivity|].
  change (String.append (String c base) ".json")
    with (String c (String.append base ".json")).
  cbn [replace_json_suffix]. now rewrite json_suffix_not_bare, IH.
Qed.

Lemma replace_json_suffix_other (p : string) :
  (forall base, p <> String.append base ".json") -> replace_json_suffix p = p.
Proof.
  induction p as [|c r IH]; intros Hno; [reflexivity|].
  cbn [replace_json_suffix].
  destruct (String.eqb (String c r) ".json") eqn:E.
  - apply String.eqb_eq in E. exfalso. apply (Hno EmptyString). exact E.
  - f_equal. apply IH. intros base ->. apply (Hno (String c base)). reflexivity.
Qed.

(** The default CSV path: a path that ends in [.json] gets that ending
    replaced by [.csv]; any other path is returned as it is. *)
Theorem default_csv_path
    : (forall base, replace_json_suffix (String.append base ".json")
                    = String.append base ".csv")
      /\ (forall p, (forall base, p <> String.append base ".json") ->
                    replace_json_suffix p = p).
Proof. split; [exact replace_json_suffix_ends|exact replace_json_suffix_other]. Qed.

Lemma csv_differs_from_json (base : string) :
  String.append base ".json" <> String.append base ".csv".
Proof.
  intros H. apply (f_equal String.length) in H.
  rewrite !string_length_append in H. cbn in H. lia.
Qed.

(** Run without [--csv] on an input whose name ends in [.json], the
    conversion works on the sibling path that ends in [.csv]: it is the
    conversion from the one to the other, it writes nowhere else, so the
    input stays as it is, and when the input holds at least one product
    the sibling holds the header and one row per product afterwards. *)
Theorem convert_main_keeps_json_input (base : string) (fs : FS) :
  let json := String.append base ".json" in
  let csv := String.append base ".csv" in
  let r := convert_main json None fs in
  r = convertJsonToCsv json csv fs
  /\ snd r !! json = fs !! json
  /\ (forall other, other <> csv -> snd r !! other = fs !! other)
  /\ (forall d p ps,
        fs !! json = Some (JsonFile d) -> products d = Some (p :: ps) ->
        fst r = Converted (S (length ps))
        /\ snd r !! csv = Some (CsvFile csv_columns (csv_row d <$> p :: ps))).
Proof.
  cbv zeta.
  assert (E : convert_main (String.append base ".json") None fs
              = convertJsonToCsv (String.append base ".json")
                  (String.append base ".csv") fs).
  { unfold convert_main. now rewrite replace_json_suffix_ends. }
  rewrite E. split; [reflexivity|]. split; [|split].
  - apply convertJsonToCsv_lookup_other, csv_differs_from_json.
  - intros other Hne. now apply convertJsonToCsv_lookup_other.
  - intros d p ps Hfile Hps. unfold convertJsonToCsv. rewrite Hfile, Hps.
    cbn [length Nat.eqb fst snd]. split.
    + now rewrite length_fmap.
    + apply lookup_insert_eq.
Qed.

Lemma convert_main_keeps_json_input_witness :
  let d := {| metadata := None; products := Some [record "A" "/a.html" "t1"] |} in
  let fs : FS := {[ "products.json" := JsonFile d ]} in
  let r := convert_main "products.json" None fs in
  fst r = Converted 1
  /\ snd r !! "products.json" = Some (JsonFile d)
  /\ snd r !! "products.csv"
     = Some (CsvFile csv_columns [csv_row d (record "A" "/a.html" "t1")]).
Proof.
  cbv zeta.
  pose proof (convert_main_keeps_json_input "products"
                {[ "products.json" := JsonFile
                     {| metadata := None;
                        products := Some [record "A" "/a.html" "t1"] |} ]})
    as (_ & Hin & _ & Hout).
  cbv zeta in Hin, Hout.
  destruct (Hout _ _ _ eq_refl eq_refl) as [H1 H2].
  split; [exact H1|]. split; [|exact H2].
  etransitivity; [exact Hin|reflexivity].
Defined.

(** Run without [--csv] on an input whose name does not end in [.json], the
    default CSV path is the input path itself: a successful conversion
    replaces the JSON document by the CSV. *)
Theorem convert_main_overwrites_other_input
    (json : string) (d : Document) (p : Product) (ps : list Product) (fs : FS) :
  (forall base, json <> String.append base ".json") ->
  fs !! json = Some (JsonFile d) ->
  products d = Some (p :: ps) ->
  snd (convert_main json None fs) !! json
  = Some (CsvFile csv_columns (csv_row d <$> p :: ps)).
Proof.
  intros Hno Hfile Hps. unfold convert_main.
  rewrite (replace_json_suffix_other json Hno).
  unfold convertJsonToCsv. rewrite Hfile, Hps. cbn [length Nat.eqb snd].
  apply lookup_insert_eq.
Qed.

Lemma convert_main_overwrites_other_input_witness :
  let d := {| metadata := None; products := Some [record "A" "/a.html" "t1"] |} in
  let fs : FS := {[ "products.txt" := JsonFile d ]} in
  ((forall base, "products.txt" <> String.append base ".json")
   /\ fs !! "products.txt" = Some (JsonFile d)
   /\ products d = Some [record "A" "/a.html" "t1"])
  /\ snd (convert_main "products.txt" None fs) !! "products.txt"
     = Some (CsvFile csv_columns [csv_row d (record "A" "/a.html" "t1")]).
Proof.
  cbv zeta.
  assert (H1 : forall base, "products.txt" <> String.append base ".json").
  { intros base H.
    assert (E : replace_json_suffix "products.txt" = String.append base ".csv")
      by (rewrite H; apply replace_json_suffix_ends).
    cbn in E. rewrite E in H.
    apply (f_equal String.length) in H. rewrite !string_length_append in H.
    cbn in H. lia. }
  assert (H2 : ({[ "products.txt" := JsonFile
                     {| metadata := None;
                        products := Some [record "A" "/a.html" "t1"] |} ]} : FS)
               !! "products.txt"
               = Some (JsonFile {| metadata := None;
                                   products := Some [record "A" "/a.html" "t1"] |}))
    by reflexivity.
  split; [auto|].
  exact (convert_main_overwrites_other_input "products.txt" _ _ _ _ H1 H2 eq_refl).
Defined.

(** ** Saving a page that shows nothing new *)

(** A save whose batch brings only urls that the file already holds (the
    page shows the same products, or fewer) leaves the products list of the
    file exactly as it was. *)
Theorem save_of_known_urls_adds_nothing
    (ps : list RawProduct) (jsonPath : string) (src now : jsstring) (fs : FS) :
  (forall c, c ∈ kept ps -> raw_url c ∈ url <$> file_products fs jsonPath) ->
  file_products (fst (saveProductsIncremental ps jsonPath src now fs)) jsonPath
  = file_products fs jsonPath.
Proof.
  intros Hknown. rewrite file_products_save. apply merge_products_known.
  intros r Hr. unfold normalized in Hr.
  apply list_elem_of_fmap in Hr as (c & -> & Hc). now apply Hknown.
Qed.

Lemma save_of_known_urls_adds_nothing_witness :
  let fs := fst (saveProductsIncremental [card "A" "/a.html"; card "B" "/b.html"]
                   "products.json" SRC (u16 "t1") ∅) in
  let ps := [card "B, now cheaper" "/b.html"] in
  (forall c, c ∈ kept ps -> raw_url c ∈ url <$> file_products fs "products.json")
  /\ file_products (fst (saveProductsIncremental ps "products.json" SRC (u16 "t2") fs))
       "products.json"
     = file_products fs "products.json".
Proof.
  cbv zeta.
  assert (H : forall c, c ∈ kept [card "B, now cheaper" "/b.html"] ->
                raw_url c ∈ url <$> file_products
                  (fst (saveProductsIncremental [card "A" "/a.html"; card "B" "/b.html"]
                          "products.json" SRC (u16 "t1") ∅)) "products.json").
  { intros c Hc. vm_compute in Hc. apply list_elem_of_singleton in Hc. subst c.
    vm_compute. right. left. }
  split; [exact H|].
  exact (save_of_known_urls_adds_nothing _ "products.json" SRC (u16 "t2") _ H).
Defined.
